(** * language/lookup.go: subtag lookup, alias normalisation and
      grandfathered tags

    A shallow embedding of [src/language/lookup.go] (package [language] of
    golang.org/x/text).  Go values are modelled as follows.

    - [byte], [uint8], [uint16], [int16], [int] and [uint] are [Z]; every
      conversion or operation that can wrap in Go has its wrap-around
      written out ([u8], [u16], [uN]).
    - [[]byte] and the byte contents of a Go [string] are [list Z]; string
      constants are written with [B "..."].  Go strings that are only used
      as map keys or sliced ([grandfatheredMap], [altTags]) are [string].
    - A function returning [(T, error)] returns an [outcome T]: [Ret] for
      a [nil] error, [Fail] for a non-nil error, [Panic] for a Go run-time
      panic (index or slice out of range) and [Timeout] when a loop of the
      model runs out of fuel (shown never to happen where it matters).
    - The generated tables of the package ([tables.go]) are data, not
      code; they are the fields of a [Registry] record, and everything is
      stated for an arbitrary registry. *)

From Stdlib Require Import ZArith Lia List String Ascii DecimalString.
From stdpp Require Import base list gmap strings.

Local Open Scope Z_scope.

(** ** Machine integers *)

Definition u8 (x : Z) : Z := x mod 256.
Definition u16 (x : Z) : Z := x mod 65536.
(** [uint] is 32 or 64 bits wide in Go; its width is a parameter. *)
Definition uN (w : Z) (x : Z) : Z := x mod 2 ^ w.
Definition uintSize : Z := 64.

(** Go byte strings. *)
Definition byte_of_ascii (c : ascii) : Z := Z.of_nat (nat_of_ascii c).
Definition B (s : string) : list Z := List.map byte_of_ascii (list_ascii_of_string s).

Definition isLower (c : Z) : bool := (97 <=? c) && (c <=? 122).
Definition isUpper (c : Z) : bool := (65 <=? c) && (c <=? 90).
Definition isLetter (c : Z) : bool := isLower c || isUpper c.
Definition isDigit (c : Z) : bool := (48 <=? c) && (c <=? 57).

(** ASCII case mapping of a byte string ([bytes.ToUpper], [bytes.ToLower]). *)
Definition upperByte (c : Z) : Z := if isLower c then c - 32 else c.
Definition lowerByte (c : Z) : Z := if isUpper c then c + 32 else c.
Definition toUpper (s : list Z) : list Z := List.map upperByte s.
Definition toLower (s : list Z) : list Z := List.map lowerByte s.

(** ** Errors and outcomes *)

(** The three failure kinds.  [errSyntax], [mkErrInvalid] and the type
    [ValueError] are declared in parse.go; [lookup.go] only uses them. *)
Inductive error : Type :=
  | errSyntax
  | errInvalid (subtag : list Z)
  | ValueError (v : list Z).

(** Modelled from the spec: [mkErrInvalid] (parse.go) builds the
    invalid-subtag failure, which "carries the rejected input for
    diagnostics". *)
Definition mkErrInvalid (s : list Z) : error := errInvalid s.

Inductive outcome (A : Type) : Type :=
  | Ret (a : A)
  | Fail (e : error)
  | Panic
  | Timeout.
Arguments Ret {A} a.
Arguments Fail {A} e.
Arguments Panic {A}.
Arguments Timeout {A}.

(** [outcome] is a monad; stdpp's [x ← m; k] notation sequences calls and
    propagates errors, panics and timeouts. *)
#[global] Instance outcome_bind : MBind outcome := fun A C k m =>
  match m with
  | Ret a => k a
  | Fail e => Fail e
  | Panic => Panic
  | Timeout => Timeout
  end.
#[global] Instance outcome_ret : MRet outcome := fun A a => Ret a.

(** ** Arrays, slices and strings *)

(** [l[i]]: panics out of range. *)
Definition index {A} (l : list A) (i : Z) : outcome A :=
  if i <? 0 then Panic
  else match l !! Z.to_nat i with
       | Some x => Ret x
       | None => Panic
       end.

(** [l[lo:hi]]: panics unless [0 <= lo <= hi <= len(l)]. *)
Definition slice {A} (l : list A) (lo hi : Z) : outcome (list A) :=
  if (0 <=? lo) && (lo <=? hi) && (hi <=? Z.of_nat (length l))
  then Ret (take (Z.to_nat (hi - lo)) (drop (Z.to_nat lo) l))
  else Panic.

Definition len {A} (l : list A) : Z := Z.of_nat (length l).

(** Total read used inside search closures, which are only ever called
    with an index inside the table (see [search_loop_ext]). *)
Definition at_ (l : list Z) (i : Z) : Z :=
  if i <? 0 then 0 else nth (Z.to_nat i) l 0.

(** ** sort.Search

    [func Search(n int, f func(int) bool) int]: binary search for the
    smallest index [i] in [0, n] with [f i], for a predicate that is
    false on a prefix and true on the rest.  The loop
    [for i < j { h := int(uint(i+j) >> 1); if !f(h) { i = h + 1 } else
    { j = h } }] runs at most [n] times. *)
Fixpoint search_loop (fuel : nat) (f : Z -> bool) (i j : Z) : Z :=
  match fuel with
  | O => i
  | S fuel' =>
      if i <? j then
        let h := Z.shiftr (i + j) 1 in
        if negb (f h) then search_loop fuel' f (h + 1) j
        else search_loop fuel' f i h
      else i
  end.

Definition sort_Search (n : Z) (f : Z -> bool) : Z :=
  search_loop (Z.to_nat n) f 0 n.

(** ** The base-26 packer *)

Definition base : Z := 122 - 97 + 1.

(** [strToInt]: [v *= base; v += uint(s[i] - 'a')] for each byte, in
    [uint] arithmetic of width [w]; [s[i] - 'a'] is a byte subtraction. *)
Definition strToInt_step (w : Z) (v c : Z) : Z :=
  uN w (uN w (v * base) + u8 (c - 97)).

Definition strToInt (w : Z) (s : list Z) : Z :=
  fold_left (strToInt_step w) s 0.

(** [intToStr]: [for i := len(s) - 1; i >= 0; i-- { s[i] = byte(v%base) +
    'a'; v /= base }].  The buffer is overwritten in place; the function
    returns its new contents.  [n] is [i + 1]. *)
Fixpoint intToStr_loop (n : nat) (v : Z) (s : list Z) : list Z :=
  match n with
  | O => s
  | S i => intToStr_loop i (v / base) (<[i := u8 (u8 (v mod base) + 97)]> s)
  end.

Definition intToStr (v : Z) (s : list Z) : list Z :=
  intToStr_loop (length s) v s.

(** ** Package internal/tag: fixed-width sorted indexes

    [tag.Index], [tag.FixCase] and [tag.Compare] live in package
    [internal/tag]; [lookup.go] only calls them, and they are modelled
    here from their specification. *)

(** Modelled from the spec: [cmp] (internal/tag), the lexicographic
    comparison of a record prefix with a key, by which the tables are
    "sorted lexicographically".  The result is [-1], [0] or [1]. *)
Fixpoint cmp (a b : list Z) : Z :=
  match a, b with
  | [], [] => 0
  | [], _ :: _ => -1
  | _ :: _, [] => 1
  | x :: a', y :: b' =>
      if y <? x then 1 else if x <? y then -1 else cmp a' b'
  end.

(** Modelled from the spec: [tag.Compare] (internal/tag), the "exact
    3-byte compare" of the alternate region table. *)
Definition Compare (a b : list Z) : Z := cmp a b.

(** The first [n] bytes of record [i] of a table of 4-byte records. *)
Definition recPrefix (s : list Z) (i : Z) (n : Z) : list Z :=
  take (Z.to_nat n) (drop (Z.to_nat (4 * i)) s).

(** Modelled from the spec: [Index.Elem] (internal/tag), the
    "fixed-length byte record" of a slot.  Records are 4 bytes long:
    [s[x*4 : x*4+4]], as the source itself slices the tables
    ([lang[id<<2:]], [index[c<<2+3]]). *)
Definition Elem (s : list Z) (x : Z) : outcome (list Z) :=
  slice s (x * 4) (x * 4 + 4).

(** Modelled from the spec: [Index.Index] (internal/tag).  "Binary search
    then locates the first record >= key; equality is required for a
    hit."  Only the first [len(key)] bytes of a record are compared.  The
    result is the slot, or [-1] for not-found. *)
Definition Index_Index (s : list Z) (key : list Z) : Z :=
  let n := len key in
  let k := sort_Search (len s / 4)
             (fun i => negb (cmp (recPrefix s i n) key =? -1)) in
  if (k <? len s / 4) && (cmp (recPrefix s k n) key =? 0) then k else -1.

(** Modelled from the spec: [Index.Next] (internal/tag), "iteration over
    all consecutive records sharing a shorter key prefix": the next slot
    if its record still has the prefix [key], else [-1]. *)
Definition Index_Next (s : list Z) (key : list Z) (x : Z) : Z :=
  let x' := x + 1 in
  if (x' * 4 <? len s) && (cmp (recPrefix s x' (len key)) key =? 0)
  then x' else -1.

(** Modelled from the spec: [tag.FixCase] (internal/tag).  It
    "case-normalizes the caller-supplied byte buffer in place against a
    template string of the same length (each byte must be a letter or
    digit matching the template's class; case is forced to match the
    template's case)"; "a class mismatch or a length mismatch" makes it
    report failure.  [Some b'] is success with the new contents [b'] of
    the buffer, [None] is failure. *)
Definition fixByte (f c : Z) : option Z :=
  if isUpper f then (if isLetter c then Some (upperByte c) else None)
  else if isLower f then (if isLetter c then Some (lowerByte c) else None)
  else if isDigit f then (if isDigit c then Some c else None)
  else None.

Fixpoint FixCase (form b : list Z) : option (list Z) :=
  match form, b with
  | [], [] => Some []
  | f :: form', c :: b' =>
      match fixByte f c with
      | Some c' =>
          match FixCase form' b' with
          | Some r => Some (c' :: r)
          | None => None
          end
      | None => None
      end
  | _, _ => None
  end.

(** Modelled from the spec: [isAlpha] (parse.go): "first character
    alphabetic". *)
Definition isAlpha (b : Z) : bool := isLetter b.

(** The loop [for i := idx.Index(key); i != -1; i = idx.Next(key, i)
    { body }].  [body i] is [Some a] when the body returns [a] from the
    enclosing function and [None] when it falls through to the next
    iteration; the loop itself yields [None] when it ends at [-1]. *)
Fixpoint forNext {A} (fuel : nat) (idx key : list Z)
    (body : Z -> outcome (option A)) (i : Z) : outcome (option A) :=
  if i =? -1 then Ret None
  else match fuel with
       | O => Timeout
       | S fuel' =>
           r ← body i;
           match r with
           | Some a => Ret (Some a)
           | None => forNext fuel' idx key body (Index_Next idx key i)
           end
       end.

Definition forIndex {A} (idx key : list Z)
    (body : Z -> outcome (option A)) : outcome (option A) :=
  forNext (S (length idx)) idx key body (Index_Index idx key).

(** [findIndex]: case-fix [key] against [form], then look it up. *)
Definition findIndex (idx : list Z) (key : list Z) (form : list Z) : outcome Z :=
  match FixCase form key with
  | None => Fail errSyntax
  | Some key =>
      let i := Index_Index idx key in
      if i =? -1 then Fail (mkErrInvalid key) else Ret i
  end.

(** [searchUint]. *)
Definition searchUint (imap : list Z) (key : Z) : Z :=
  sort_Search (len imap) (fun i => key <=? at_ imap i).

(** ** The registry: generated tables and constants (tables.go) *)

Record fromTo : Type := { from : Z; to : Z }.

Record Registry : Type := {
  lang : list Z;                (* tag.Index of languages *)
  altLangISO3 : list Z;         (* tag.Index of alternate 3-letter codes *)
  altLangIndex : list Z;        (* []uint16 *)
  langNoIndex : list Z;         (* []uint8, a bit set *)
  langNoIndexOffset : Z;
  nonCanonicalUnd : Z;
  langAliasMap : list fromTo;
  langAliasTypes : list Z;      (* []langAliasType *)
  langAliasTypeUnknown : Z;
  regionISO : list Z;           (* tag.Index of regions *)
  altRegionISO3 : list Z;       (* string of 3-byte codes *)
  altRegionIDs : list Z;        (* []uint16 *)
  isoRegionOffset : Z;
  fromM49 : list Z;             (* []uint16 *)
  m49Index : list Z;            (* []int16 *)
  m49 : list Z;                 (* []int16 *)
  regionOldMap : list fromTo;
  script : list Z;              (* tag.Index of scripts *)
  currency : list Z;            (* tag.Index of currencies *)
  valueErrorLen : nat;          (* length of the array ValueError.v *)
  (* language identifiers named by grandfatheredMap *)
  _jbo : Z; _ami : Z; _bnn : Z; _hak : Z; _tlh : Z; _lb : Z; _nv : Z;
  _pwn : Z; _tao : Z; _tay : Z; _tsu : Z; _nb : Z; _nn : Z; _sfb : Z;
  _vgt : Z; _sgg : Z; _cmn : Z; _nan : Z; _hsn : Z
}.

(** ** Languages *)

(** [normLang]. *)
Definition normLang (R : Registry) (id : Z) : outcome (Z * Z) :=
  let m := langAliasMap R in
  let k := sort_Search (len m)
             (fun i => match m !! Z.to_nat i with
                       | Some e => id <=? from e
                       | None => false
                       end) in
  match (if k <? len m then m !! Z.to_nat k else None) with
  | Some e =>
      if from e =? id then
        t ← index (langAliasTypes R) k; Ret (to e, t)
      else Ret (id, langAliasTypeUnknown R)
  | None => Ret (id, langAliasTypeUnknown R)
  end.

(** [getLangISO2]. *)
Definition getLangISO2 (R : Registry) (s : list Z) : outcome Z :=
  match FixCase (B "zz") s with
  | None => Fail errSyntax
  | Some s =>
      let i := Index_Index (lang R) s in
      if i =? -1 then Fail (mkErrInvalid s)
      else
        e ← Elem (lang R) i;
        e3 ← index e 3;
        if e3 =? 0 then Fail (mkErrInvalid s) else Ret (u16 i)
  end.

(** [getLangISO3]. *)
Definition getLangISO3 (R : Registry) (s : list Z) : outcome Z :=
  match FixCase (B "und") s with
  | None => Fail errSyntax
  | Some s =>
      s01 ← slice s 0 2;
      s0 ← slice s 0 1;
      c1 ← index s 1;
      c2 ← index s 2;
      (* first try to match canonical 3-letter entries *)
      r1 ← forIndex (lang R) s01 (fun i =>
              e ← Elem (lang R) i;
              e2 ← index e 2;
              e3 ← index e 3;
              if (e3 =? 0) && (e2 =? c2) then
                let id := u16 i in
                if id =? nonCanonicalUnd R then Ret (Some 0) else Ret (Some id)
              else Ret None);
      match r1 with
      | Some id => Ret id
      | None =>
          let i := Index_Index (altLangISO3 R) s in
          if negb (i =? -1) then
            e ← Elem (altLangISO3 R) i;
            e3 ← index e 3;
            v ← index (altLangIndex R) e3;
            Ret v
          else
            let n := strToInt uintSize s in
            b ← index (langNoIndex R) (n / 8);
            if negb (Z.land b (u8 (Z.shiftl 1 (n mod 8))) =? 0) then
              Ret (u16 (u16 n + langNoIndexOffset R))
            else
              (* Check for non-canonical uses of ISO3. *)
              r2 ← forIndex (lang R) s0 (fun i =>
                      e ← Elem (lang R) i;
                      e2 ← index e 2;
                      e3 ← index e 3;
                      if (e2 =? c1) && (e3 =? c2) then Ret (Some (u16 i))
                      else Ret None);
              match r2 with
              | Some id => Ret id
              | None => Fail (mkErrInvalid s)
              end
      end
  end.

(** [getLangID]. *)
Definition getLangID (R : Registry) (s : list Z) : outcome Z :=
  if len s =? 2 then getLangISO2 R s else getLangISO3 R s.

(** [langID.String]. *)
Definition langID_String (R : Registry) (b : Z) : outcome (list Z) :=
  if b =? 0 then Ret (B "und")
  else if langNoIndexOffset R <=? b then
    let b := u16 (b - langNoIndexOffset R) in
    Ret (intToStr b [0; 0; 0])
  else
    l ← Elem (lang R) b;
    l3 ← index l 3;
    if l3 =? 0 then slice l 0 3 else slice l 0 2.

(** ** The standard library pieces used by the region code *)

(** [strconv.ParseUint(s, 10, bitSize)]: [Some n] when the error is
    [nil].  In base 10 the string must be a non-empty run of digits, and
    a value that does not fit [bitSize] bits is a range error. *)
Fixpoint parseDigits (s : list Z) (acc : Z) : option Z :=
  match s with
  | [] => Some acc
  | c :: s' => if isDigit c then parseDigits s' (acc * 10 + (c - 48)) else None
  end.

Definition ParseUint10 (s : list Z) (bitSize : Z) : option Z :=
  match s with
  | [] => None
  | _ => match parseDigits s 0 with
         | Some n => if n <? 2 ^ bitSize then Some n else None
         | None => None
         end
  end.

(** The decimal text of an [int], as [fmt.Fprint] and the verb [%d]
    print it. *)
Definition decimal (n : Z) : list Z :=
  B (NilZero.string_of_int (Z.to_int n)).

(** [fmt.Sprintf("%03d", n)]: zero-padded to width 3, sign included. *)
Definition Sprintf03d (n : Z) : list Z :=
  let d := decimal (Z.abs n) in
  let sign := if n <? 0 then B "-" else [] in
  sign ++ replicate (3 - length sign - length d)%nat 48 ++ d.

(** *** Byte arrays on the heap, slices and [bytes.Buffer]

    A heap is a list of byte arrays; the address of an array is its
    position.  A slice is a window [s_off, s_off + s_len) into the array
    [s_arr], which it may grow up to [s_cap] bytes. *)
Record sliceRef : Type := { s_arr : nat; s_off : nat; s_len : nat; s_cap : nat }.

(** [bytes.Buffer]: contents are the bytes [buf[off : len(buf)]]. *)
Record Buffer : Type := { buf : sliceRef; off : nat }.

(** [make([]byte, n)]-style allocation of a zeroed array. *)
Definition alloc (h : list (list Z)) (n : nat) : nat * list (list Z) :=
  (length h, h ++ [replicate n 0]).

(** The bytes a slice denotes. *)
Definition readSlice (h : list (list Z)) (r : sliceRef) : list Z :=
  take (s_len r) (drop (s_off r) (h !!! s_arr r)).

(** Overwrite the bytes of array [a] from position [pos] on with [p]. *)
Fixpoint pokes (a : list Z) (pos : nat) (p : list Z) : list Z :=
  match p with
  | [] => a
  | c :: p' => pokes (<[pos := c]> a) (S pos) p'
  end.

(** [copy(r[m:], p)]: copies [min(len(r) - m, len(p))] bytes. *)
Definition copyAt (h : list (list Z)) (r : sliceRef) (m : nat) (p : list Z)
    : list (list Z) :=
  let k := Nat.min (s_len r - m) (length p) in
  <[s_arr r := pokes (h !!! s_arr r) (s_off r + m) (take k p)]> h.

Definition reslice (r : sliceRef) (n : nat) : sliceRef :=
  {| s_arr := s_arr r; s_off := s_off r; s_len := n; s_cap := s_cap r |}.

(** [bytes.NewBuffer(buf)]: "creates and initializes a new Buffer using
    buf as its initial contents". *)
Definition NewBuffer (r : sliceRef) : Buffer := {| buf := r; off := 0 |}.

(** [Buffer.Write(p)] for a buffer over a non-nil slice:
    [tryGrowByReslice] appends in place while the capacity allows it;
    otherwise [grow] either slides the contents down inside the old array
    (when they and [p] fit in half of it) or moves them to a newly
    allocated array.  Then [copy(b.buf[m:], p)]. *)
Definition Buffer_Write (h : list (list Z)) (b : Buffer) (p : list Z)
    : list (list Z) * Buffer :=
  let n := length p in
  let l := s_len (buf b) in
  if (n <=? s_cap (buf b) - l)%nat then
    let r := reslice (buf b) (l + n) in
    (copyAt h r l p, {| buf := r; off := off b |})
  else
    let m := (l - off b)%nat in
    (* an empty buffer is reset to recover space *)
    let b := if ((m =? 0) && negb (off b =? 0))%nat
             then {| buf := reslice (buf b) 0; off := 0 |} else b in
    let l := s_len (buf b) in
    let c := s_cap (buf b) in
    if (n <=? c - l)%nat then
      let r := reslice (buf b) (l + n) in
      (copyAt h r l p, {| buf := r; off := off b |})
    else
      let contents := drop (off b) (readSlice h (buf b)) in
      if (n + m <=? c / 2)%nat then
        let r := reslice (buf b) (m + n) in
        let h := copyAt h r 0 contents in
        (copyAt h r m p, {| buf := r; off := 0 |})
      else
        let '(a, h) := alloc h (2 * c + n) in
        let r := {| s_arr := a; s_off := 0; s_len := m + n; s_cap := 2 * c + n |} in
        let h := copyAt h r 0 contents in
        (copyAt h r m p, {| buf := r; off := 0 |}).

(** [fmt.Fprint(w, n)] for an [int] [n]: one [Write] of its decimal text. *)
Definition Fprint (h : list (list Z)) (w : Buffer) (n : Z)
    : list (list Z) * Buffer :=
  Buffer_Write h w (decimal n).

(** ** Regions *)

(** [getRegionISO2]. *)
Definition getRegionISO2 (R : Registry) (s : list Z) : outcome Z :=
  i ← findIndex (regionISO R) s (B "ZZ");
  Ret (u16 (u16 i + isoRegionOffset R)).

(** The loop [for i := 0; i < len(altRegionISO3); i += 3] of
    [getRegionISO3]; [fuel] bounds the number of iterations. *)
Fixpoint altRegionScan (fuel : nat) (R : Registry) (s : list Z) (i : Z)
    : outcome (option Z) :=
  if i <? len (altRegionISO3 R) then
    match fuel with
    | O => Timeout
    | S fuel' =>
        a ← slice (altRegionISO3 R) i (i + 3);
        if Compare a s =? 0 then
          v ← index (altRegionIDs R) (i / 3); Ret (Some v)
        else altRegionScan fuel' R s (i + 3)
    end
  else Ret None.

(** [getRegionISO3]. *)
Definition getRegionISO3 (R : Registry) (s : list Z) : outcome Z :=
  match FixCase (B "ZZZ") s with
  | None => Fail errSyntax
  | Some s =>
      s0 ← slice s 0 1;
      c1 ← index s 1;
      c2 ← index s 2;
      r1 ← forIndex (regionISO R) s0 (fun i =>
              e ← Elem (regionISO R) i;
              e2 ← index e 2;
              e3 ← index e 3;
              if (e2 =? c1) && (e3 =? c2)
              then Ret (Some (u16 (u16 i + isoRegionOffset R)))
              else Ret None);
      match r1 with
      | Some id => Ret id
      | None =>
          r2 ← altRegionScan (S (length (altRegionISO3 R))) R s 0;
          match r2 with
          | Some id => Ret id
          | None => Fail (mkErrInvalid s)
          end
      end
  end.

Definition searchBits : Z := 7.
Definition regionBits : Z := 9.
Definition regionMask : Z := Z.shiftl 1 regionBits - 1.

(** The table search of [getRegionM49], for [0 < n <= 999]: [Some r] when
    the region is found. *)
Definition m49Lookup (R : Registry) (n : Z) : outcome (option Z) :=
  let idx := Z.shiftr n searchBits in
  lo ← index (m49Index R) idx;
  hi ← index (m49Index R) (idx + 1);
  buf ← slice (fromM49 R) lo hi;
  let val := u16 (Z.shiftl (u16 n) regionBits) in (* bits shift out *)
  let i := sort_Search (len buf) (fun i => val <=? at_ buf i) in
  r ← index (fromM49 R) (lo + i);
  if Z.land r (Z.lxor 65535 regionMask) =? val
  then Ret (Some (Z.land r regionMask))
  else Ret None.

(** The failure exit of [getRegionM49]:
    [var e ValueError; fmt.Fprint(bytes.NewBuffer([]byte(e.v[:])), n);
    return 0, e].  [e.v] is the array at address [0] of a fresh heap;
    [e.v[:]] is the slice of all of it, which the conversion to [[]byte]
    leaves as it is; the returned error is a copy of [e], read after the
    call. *)
Definition m49Error (R : Registry) (n : Z) : error :=
  let '(a, h) := alloc [] (valueErrorLen R) in
  let ev := {| s_arr := a; s_off := 0;
               s_len := valueErrorLen R; s_cap := valueErrorLen R |} in
  let '(h, _) := Fprint h (NewBuffer ev) n in
  ValueError (h !!! a).

(** [getRegionM49]. *)
Definition getRegionM49 (R : Registry) (n : Z) : outcome Z :=
  if (0 <? n) && (n <=? 999) then
    r ← m49Lookup R n;
    match r with
    | Some id => Ret id
    | None => Fail (m49Error R n)
    end
  else Fail (m49Error R n).

(** [getRegionID]. *)
Definition getRegionID (R : Registry) (s : list Z) : outcome Z :=
  if len s =? 3 then
    s0 ← index s 0;
    if isAlpha s0 then getRegionISO3 R s
    else match ParseUint10 s 10 with
         | Some i => getRegionM49 R i
         | None => getRegionISO2 R s
         end
  else getRegionISO2 R s.

(** [normRegion]. *)
Definition normRegion (R : Registry) (r : Z) : Z :=
  let m := regionOldMap R in
  let k := sort_Search (len m)
             (fun i => match m !! Z.to_nat i with
                       | Some e => r <=? from e
                       | None => false
                       end) in
  match (if k <? len m then m !! Z.to_nat k else None) with
  | Some e => if from e =? r then to e else 0
  | None => 0
  end.

(** [regionID.M49]. *)
Definition regionID_M49 (R : Registry) (r : Z) : outcome Z := index (m49 R) r.

(** [regionID.String]. *)
Definition regionID_String (R : Registry) (r : Z) : outcome (list Z) :=
  if r <? isoRegionOffset R then
    if r =? 0 then Ret (B "ZZ")
    else n ← regionID_M49 R r; Ret (Sprintf03d n)
  else
    let r := u16 (r - isoRegionOffset R) in
    e ← Elem (regionISO R) r;
    slice e 0 2.

(** ** Scripts and currencies *)

(** [getScriptID]: [scriptID] is a [uint8]. *)
Definition getScriptID (idx : list Z) (s : list Z) : outcome Z :=
  i ← findIndex idx s (B "Zzzz"); Ret (u8 i).

(** [scriptID.String]. *)
Definition scriptID_String (R : Registry) (s : Z) : outcome (list Z) :=
  if s =? 0 then Ret (B "Zzzz") else Elem (script R) s.

(** [getCurrencyID]: [currencyID] is a [uint16]. *)
Definition getCurrencyID (idx : list Z) (s : list Z) : outcome Z :=
  i ← findIndex idx s (B "XXX"); Ret (u16 i).

(** [currencyID.String]. *)
Definition currencyID_String (R : Registry) (c : Z) : outcome (list Z) :=
  if c =? 0 then Ret (B "XXX")
  else e ← Elem (currency R) c; slice e 0 3.

(** ** Grandfathered tags *)

(** [Tag] is declared in language.go; [lookup.go] only touches its field
    [lang].  The other fields stand for the rest of the struct. *)
Record Tag : Type := {
  Tag_lang : Z;
  Tag_script : Z;
  Tag_region : Z;
  Tag_str : string
}.

(** The zero value of [Tag]. *)
Definition zeroTag : Tag :=
  {| Tag_lang := 0; Tag_script := 0; Tag_region := 0; Tag_str := ""%string |}.

(** [grandfatheredMap]. *)
Definition grandfatheredMap (R : Registry) : gmap string Z :=
  list_to_map
    [ ("art-lojban", _jbo R); ("i-ami", _ami R); ("i-bnn", _bnn R);
      ("i-hak", _hak R); ("i-klingon", _tlh R); ("i-lux", _lb R);
      ("i-navajo", _nv R); ("i-pwn", _pwn R); ("i-tao", _tao R);
      ("i-tay", _tay R); ("i-tsu", _tsu R); ("no-bok", _nb R);
      ("no-nyn", _nn R); ("sgn-BE-FR", _sfb R); ("sgn-BE-NL", _vgt R);
      ("sgn-CH-DE", _sgg R); ("zh-guoyu", _cmn R); ("zh-hakka", _hak R);
      ("zh-min-nan", _nan R); ("zh-xiang", _hsn R);
      (* Grandfathered tags with no modern replacement *)
      ("cel-gaulish", -1); ("en-GB-oed", -2); ("i-default", -3);
      ("i-enochian", -4); ("i-mingo", -5); ("zh-min", -6);
      (* CLDR-specific tag. *)
      ("root", 0) ]%string.

Definition altTagIndex : list Z := [0; 17; 28; 42; 58; 71; 83].

Definition altTags : string :=
  "xtg-x-cel-gaulishen-GB-x-oeden-x-i-defaultund-x-i-enochiansee-x-i-mingonan-x-zh-min".

(** [s[lo:hi]] on a Go string. *)
Definition strSlice (s : string) (lo hi : Z) : outcome string :=
  if (0 <=? lo) && (lo <=? hi) && (hi <=? Z.of_nat (String.length s))
  then Ret (substring (Z.to_nat lo) (Z.to_nat (hi - lo)) s)
  else Panic.

(** [grandfathered].  [Make], the tag constructor of language.go, is a
    parameter. *)
Definition grandfathered (Make : string -> Tag) (R : Registry) (s : string)
    : outcome (Tag * bool) :=
  match grandfatheredMap R !! s with
  | Some v =>
      if v <? 0 then
        lo ← index altTagIndex (- v - 1);
        hi ← index altTagIndex (- v);
        lit ← strSlice altTags lo hi;
        Ret (Make lit, true)
      else
        Ret ({| Tag_lang := u16 v; Tag_script := Tag_script zeroTag;
                Tag_region := Tag_region zeroTag; Tag_str := Tag_str zeroTag |},
             true)
  | None => Ret (zeroTag, false)
  end.

(** ** A small registry

    The theorems below are about every registry.  [sample] is a small
    registry laid out as the code expects, on which the definitions can
    be run: language records are a 2-letter code followed by the rest of
    its 3-letter code (or [0] and an index into [altLangISO3]), or a
    3-letter code followed by [0]; every index ends with a record of
    [0xff] bytes. *)
Definition sentinel : list Z := [255; 255; 255; 255].

Definition sampleLang : list Z :=
  [0; 0; 0; 0] ++ B "aaar" ++ B "ace" ++ [0] ++ B "cmn" ++ [0] ++ B "enng"
  ++ B "heeb" ++ B "iw" ++ [0; 1] ++ B "tlh" ++ [0] ++ B "und" ++ [0]
  ++ B "zhho" ++ sentinel.

Definition sampleRegionISO : list Z :=
  B "AAAA" ++ B "BUUR" ++ B "DEEU" ++ B "GBBR" ++ B "MMMR" ++ B "USSA"
  ++ B "ZZZZ" ++ sentinel.

Definition sample : Registry := {|
  lang := sampleLang;
  altLangISO3 := B "---" ++ [0] ++ B "heb" ++ [1] ++ sentinel;
  altLangIndex := [0; 6];
  langNoIndex := 2 :: replicate 2196 0;
  langNoIndexOffset := 100;
  nonCanonicalUnd := 8;
  langAliasMap := [ {| from := 3; to := 9 |}; {| from := 6; to := 5 |} ];
  langAliasTypes := [1; 0];
  langAliasTypeUnknown := -1;
  regionISO := sampleRegionISO;
  altRegionISO3 := B "GBR";
  altRegionIDs := [7];
  isoRegionOffset := 4;
  fromM49 := [513; 1026; 53256; 10246; 17923; 29703; 36873; 31748; 52746];
  m49Index := [0; 3; 3; 4; 5; 5; 5; 7; 9];
  m49 := [0; 1; 2; 419; 958; 104; 276; 826; 104; 840; 999];
  regionOldMap := [ {| from := 5; to := 8 |} ];
  script := B "----" ++ B "Latn" ++ B "Zzzz" ++ sentinel;
  currency := [0; 0; 0; 0] ++ B "EUR" ++ [2] ++ B "USD" ++ [2] ++ B "XXX"
              ++ [0] ++ sentinel;
  valueErrorLen := 8;
  _jbo := 101; _ami := 102; _bnn := 103; _hak := 104; _tlh := 7; _lb := 105;
  _nv := 106; _pwn := 107; _tao := 108; _tay := 109; _tsu := 110; _nb := 111;
  _nn := 112; _sfb := 113; _vgt := 114; _sgg := 115; _cmn := 3; _nan := 116;
  _hsn := 117
|}.

(** ** Layout conditions on the tables

    The lookups rely on properties of the generated tables; they are
    decidable and are checked here by boolean functions. *)

(** The records of an index, in slot order. *)
Definition records (s : list Z) : list (list Z) :=
  (fun i => recPrefix s i 4) <$> seqZ 0 (len s / 4).

(** The table is sorted on the first [k] bytes of its records. *)
Definition sortedOn (k : Z) (s : list Z) : bool :=
  forallb (fun i => negb (cmp (recPrefix s i k) (recPrefix s (i + 1) k) =? 1))
          (seqZ 0 (len s / 4 - 1)).

(** No two slots hold the same record. *)
Definition distinctRecords (s : list Z) : bool :=
  bool_decide (NoDup (records s)).

(** [id] designates a slot of [lang] that holds a language code: a
    3-letter code followed by [0], or a 2-letter code (4th byte non-zero)
    that comes first among the records sharing its two letters.  The slot
    [nonCanonicalUnd] is left out. *)
Definition langSlot (R : Registry) (id : Z) : bool :=
  (0 <? id) && (id <? len (lang R) / 4) && (id <? langNoIndexOffset R)
  && (id <? 65536) && negb (id =? nonCanonicalUnd R)
  && match recPrefix (lang R) id 4 with
     | [a; b; c; d] =>
         isLower a && isLower b
         && (if d =? 0 then isLower c
             else negb (cmp (recPrefix (lang R) (id - 1) 2) [a; b] =? 0))
     | _ => false
     end.

(** [r] designates a slot of [regionISO] that holds a 2-letter region
    code, the first record with these two letters. *)
Definition regionSlot (R : Registry) (r : Z) : bool :=
  let x := r - isoRegionOffset R in
  (0 <=? isoRegionOffset R) && (0 <=? x) && (x <? len (regionISO R) / 4)
  && (r <? 65536)
  && match recPrefix (regionISO R) x 4 with
     | [a; b; _; _] =>
         isUpper a && isUpper b
         && ((x =? 0)
             || negb (cmp (recPrefix (regionISO R) (x - 1) 2) [a; b] =? 0))
     | _ => false
     end.

(** The alias table is strictly ascending in [from]. *)
Fixpoint ascending (m : list fromTo) : bool :=
  match m with
  | e :: ((e' :: _) as m') => (from e <? from e') && ascending m'
  | _ => true
  end.

(** No entry's [to] is itself a [from]. *)
Definition noChain (m : list fromTo) : bool :=
  forallb (fun e => forallb (fun e' => negb (to e =? from e')) m) m.

(** The number a lowercase string denotes in base 26, without any
    wrap-around. *)
Definition digitsVal (s : list Z) : Z :=
  fold_left (fun v c => v * 26 + (c - 97)) s 0.

(** ** The remaining renderers of lookup.go *)

(** [langID.stringToBuf].  The buffer [b] is given by the array it
    points into, from its first byte on ([arr], so [cap(b)] is the length
    of [arr]) and by its length [blen]; the result is the number of bytes
    written and the array afterwards.  [b[:3]] needs [cap(b) >= 3];
    [copy] writes [min(len(b), len(src))] bytes; the shift in
    [lang[id<<2:]] is a [uint16] shift. *)
Definition stringToBuf (R : Registry) (id : Z) (arr : list Z) (blen : nat)
    : outcome (Z * list Z) :=
  let copy (src : list Z) : outcome (Z * list Z) :=
    let k := Nat.min blen (length src) in
    Ret (Z.of_nat k, take k src ++ drop k arr) in
  if langNoIndexOffset R <=? id then
    if (3 <=? length arr)%nat then
      Ret (3, intToStr (id - langNoIndexOffset R) (take 3 arr) ++ drop 3 arr)
    else Panic
  else if id =? 0 then copy (B "und")
  else
    let x := u16 (Z.shiftl id 2) in
    if x <=? len (lang R) then
      let l := drop (Z.to_nat x) (lang R) in
      l3 ← index l 3;
      if l3 =? 0 then src ← slice l 0 3; copy src
      else src ← slice l 0 2; copy src
    else Panic.

(** [langID.ISO3]. *)
Definition langID_ISO3 (R : Registry) (b : Z) : outcome (list Z) :=
  if (b =? 0) || (langNoIndexOffset R <=? b) then langID_String R b
  else
    l ← Elem (lang R) b;
    l3 ← index l 3;
    if l3 =? 0 then slice l 0 3
    else
      l2 ← index l 2;
      if l2 =? 0 then
        e ← Elem (altLangISO3 R) l3; slice e 0 3
      else
        (* This allocation will only happen for 3-letter ISO codes
           that are non-canonical BCP 47 language identifiers. *)
        h ← slice l 0 1; t ← slice l 2 4; Ret (h ++ t).

(** [regionID.ISO3]. *)
Definition regionID_ISO3 (R : Registry) (r : Z) : outcome (list Z) :=
  if r <? isoRegionOffset R then Ret (B "ZZZ")
  else
    let r := u16 (r - isoRegionOffset R) in
    reg ← Elem (regionISO R) r;
    reg2 ← index reg 2;
    if reg2 =? 0 then
      reg3 ← index reg 3;
      a ← slice (altRegionISO3 R) reg3 (len (altRegionISO3 R));
      slice a 0 3
    else if reg2 =? 32 then Ret (B "ZZZ")
    else h ← slice reg 0 1; t ← slice reg 2 4; Ret (h ++ t).

(** ** Further layout conditions *)

(** A list of numbers is ascending (not necessarily strictly). *)
Fixpoint ascendingZ (l : list Z) : bool :=
  match l with
  | x :: ((y :: _) as l') => (x <=? y) && ascendingZ l'
  | _ => true
  end.

(** Slot [x] of [regionISO] is the first one whose record has these
    bytes at positions 0, 2 and 3, that is, this 3-letter code. *)
Definition firstISO3 (R : Registry) (x : Z) : bool :=
  match recPrefix (regionISO R) x 4 with
  | [a; _; c; d] =>
      forallb (fun j => match recPrefix (regionISO R) j 4 with
                        | [a'; _; c'; d'] =>
                            negb ((a' =? a) && (c' =? c) && (d' =? d))
                        | _ => true
                        end)
              (seqZ 0 x)
  | _ => false
  end.

(** * Properties *)

(** ** Bytes and machine integers *)

Lemma isLower_range c : isLower c = true <-> 97 <= c <= 122.
Proof. unfold isLower. rewrite andb_true_iff, !Z.leb_le. tauto. Qed.

Lemma isUpper_range c : isUpper c = true <-> 65 <= c <= 90.
Proof. unfold isUpper. rewrite andb_true_iff, !Z.leb_le. tauto. Qed.

Lemma isDigit_range c : isDigit c = true <-> 48 <= c <= 57.
Proof. unfold isDigit. rewrite andb_true_iff, !Z.leb_le. tauto. Qed.

Lemma u8_small x : 0 <= x < 256 -> u8 x = x.
Proof. intros. unfold u8. apply Z.mod_small. lia. Qed.

Lemma u16_small x : 0 <= x < 65536 -> u16 x = x.
Proof. intros. unfold u16. apply Z.mod_small. lia. Qed.

(** ** The base-26 packer: [intToStr] inverts [strToInt] *)

Lemma digitsVal_snoc s c : digitsVal (s ++ [c]) = digitsVal s * 26 + (c - 97).
Proof. unfold digitsVal. now rewrite fold_left_app. Qed.

Lemma digitsVal_bound s :
  Forall (fun c => isLower c = true) s ->
  0 <= digitsVal s < 26 ^ Z.of_nat (length s).
Proof.
  induction s as [|c s IH] using rev_ind; intros Hs.
  - cbn. lia.
  - apply Forall_app in Hs as [Hs Hc].
    apply Forall_inv in Hc. apply isLower_range in Hc.
    specialize (IH Hs).
    rewrite digitsVal_snoc, length_app, Nat2Z.inj_add. cbn [length].
    rewrite Z.pow_add_r by lia. change (26 ^ Z.of_nat 1) with 26. lia.
Qed.

Lemma strToInt_snoc w s c :
  strToInt w (s ++ [c]) = strToInt_step w (strToInt w s) c.
Proof. unfold strToInt. now rewrite fold_left_app. Qed.

(** As long as [26 ^ len(s)] fits the word, [strToInt] never wraps. *)
Lemma strToInt_digitsVal w s :
  Forall (fun c => isLower c = true) s ->
  26 ^ Z.of_nat (length s) <= 2 ^ w ->
  strToInt w s = digitsVal s.
Proof.
  induction s as [|c s IH] using rev_ind; intros Hs Hw; [reflexivity|].
  pose proof (digitsVal_bound _ Hs) as Hb.
  apply Forall_app in Hs as [Hs Hc].
  pose proof (digitsVal_bound _ Hs) as Hb'.
  apply Forall_inv in Hc. apply isLower_range in Hc.
  rewrite length_app, Nat2Z.inj_add in Hw, Hb. cbn [length] in Hw, Hb.
  rewrite Z.pow_add_r in Hw, Hb by lia.
  change (26 ^ Z.of_nat 1) with 26 in Hw, Hb.
  rewrite digitsVal_snoc in Hb.
  rewrite strToInt_snoc, digitsVal_snoc, IH by (auto; lia).
  unfold strToInt_step, uN, base. change (122 - 97 + 1) with 26.
  rewrite (u8_small (c - 97)) by lia.
  rewrite (Z.mod_small (digitsVal s * 26)) by lia.
  apply Z.mod_small. lia.
Qed.

(** The loop of [intToStr] writes the digits of [digitsVal s] over the
    first [len(s)] bytes of the buffer. *)
Lemma intToStr_loop_digitsVal s : forall b,
  Forall (fun c => isLower c = true) s ->
  (length s <= length b)%nat ->
  intToStr_loop (length s) (digitsVal s) b = s ++ drop (length s) b.
Proof.
  induction s as [|c s IH] using rev_ind; intros b Hs Hlen; [reflexivity|].
  apply Forall_app in Hs as [Hs Hc].
  pose proof (digitsVal_bound _ Hs) as Hb.
  apply Forall_inv in Hc. apply isLower_range in Hc.
  rewrite length_app in *. cbn [length] in *.
  rewrite Nat.add_1_r in *. cbn [intToStr_loop].
  rewrite digitsVal_snoc. unfold base. change (122 - 97 + 1) with 26.
  replace ((digitsVal s * 26 + (c - 97)) / 26) with (digitsVal s)
    by (apply Z.div_unique with (r := c - 97); lia).
  replace ((digitsVal s * 26 + (c - 97)) mod 26) with (c - 97)
    by (apply Z.mod_unique with (q := digitsVal s); lia).
  rewrite (u8_small (c - 97)) by lia.
  replace (c - 97 + 97) with c by lia.
  rewrite (u8_small c) by lia.
  rewrite IH by (auto; rewrite length_insert; lia).
  rewrite insert_take_drop by lia.
  rewrite drop_app_length' by (rewrite length_take; lia).
  now rewrite <- app_assoc.
Qed.

(** C5. Packer inverse: for every 3-letter lowercase string [s] (and both
    widths of Go's [uint]), [intToStr] run on the packed integer
    [strToInt s] and any 3-byte buffer leaves exactly [s] in the buffer. *)
Theorem intToStr_strToInt (w : Z) (s b : list Z) :
  w = 32 \/ w = 64 ->
  length s = 3%nat ->
  Forall (fun c => isLower c = true) s ->
  length b = 3%nat ->
  intToStr (strToInt w s) b = s.
Proof.
  intros Hw Hlen Hs Hb.
  rewrite strToInt_digitsVal; auto.
  - unfold intToStr. rewrite Hb, <- Hlen.
    rewrite intToStr_loop_digitsVal by (auto; lia).
    rewrite drop_ge by lia. apply app_nil_r.
  - rewrite Hlen. destruct Hw; subst w; vm_compute; discriminate.
Qed.

Lemma intToStr_strToInt_witness :
  intToStr (strToInt 64 (B "tlh")) [0; 0; 0] = B "tlh".
Proof.
  apply (intToStr_strToInt 64 (B "tlh") [0; 0; 0]).
  - right; reflexivity.
  - reflexivity.
  - repeat constructor.
  - reflexivity.
Defined.

(** ** sort.Search *)

Lemma shiftr1_mid i j : 0 <= i -> i < j -> i <= Z.shiftr (i + j) 1 < j.
Proof.
  intros Hi Hj. rewrite Z.shiftr_div_pow2 by lia. change (2 ^ 1) with 2.
  split; [apply Z.div_le_lower_bound | apply Z.div_lt_upper_bound]; lia.
Qed.

(** The loop invariant of the binary search: [f] is false just below [i]
    and true at [j]. *)
Lemma search_loop_spec n f fuel : forall i j,
  0 <= i -> i <= j -> j <= n -> j - i <= Z.of_nat fuel ->
  (i = 0 \/ f (i - 1) = false) -> (j = n \/ f j = true) ->
  let k := search_loop fuel f i j in
  i <= k <= j /\ (k = 0 \/ f (k - 1) = false) /\ (k = n \/ f k = true).
Proof.
  induction fuel as [|fuel IH]; intros i j Hi Hij Hjn Hfuel Hlo Hhi; cbn.
  - assert (i = j) by lia. subst. repeat split; auto; lia.
  - destruct (Z.ltb_spec i j) as [Hlt|Hge].
    + pose proof (shiftr1_mid i j Hi Hlt) as Hh.
      destruct (f (Z.shiftr (i + j) 1)) eqn:Hf; cbn.
      * edestruct (IH i (Z.shiftr (i + j) 1)) as (? & ? & ?); eauto; try lia.
        repeat split; auto; lia.
      * edestruct (IH (Z.shiftr (i + j) 1 + 1) j) as (? & ? & ?); eauto; try lia.
        { right. now replace (Z.shiftr (i + j) 1 + 1 - 1)
            with (Z.shiftr (i + j) 1) by lia. }
        repeat split; auto; lia.
    + assert (i = j) by lia. subst. repeat split; auto; lia.
Qed.

Lemma sort_Search_spec n f :
  0 <= n ->
  let k := sort_Search n f in
  0 <= k <= n /\ (k = 0 \/ f (k - 1) = false) /\ (k = n \/ f k = true).
Proof.
  intros Hn. unfold sort_Search.
  apply search_loop_spec; auto; lia.
Qed.

(** For a predicate that, once true, stays true, the result is the least
    index at which it holds. *)
Lemma sort_Search_least n f :
  0 <= n ->
  (forall x y, 0 <= x -> x <= y -> y < n -> f x = true -> f y = true) ->
  forall x, 0 <= x < sort_Search n f -> f x = false.
Proof.
  intros Hn Hmono x Hx.
  destruct (sort_Search_spec n f Hn) as (Hk & [Hk0|Hlo] & _); [lia|].
  destruct (f x) eqn:Hfx; [|reflexivity].
  rewrite <- Hlo. symmetry. apply (Hmono x); auto; lia.
Qed.

(** The search only looks at its predicate inside the table. *)
Lemma search_loop_ext f g fuel : forall i j,
  0 <= i ->
  (forall x, i <= x < j -> f x = g x) ->
  search_loop fuel f i j = search_loop fuel g i j.
Proof.
  induction fuel as [|fuel IH]; intros i j Hi Hfg; cbn; [reflexivity|].
  destruct (Z.ltb_spec i j) as [Hlt|Hge]; [|reflexivity].
  pose proof (shiftr1_mid i j Hi Hlt) as Hh.
  rewrite <- (Hfg (Z.shiftr (i + j) 1)) by lia.
  destruct (f (Z.shiftr (i + j) 1)); cbn; apply IH; try lia;
    intros; apply Hfg; lia.
Qed.

(** ** Alias tables *)

Lemma ascending_tail e m : ascending (e :: m) = true -> ascending m = true.
Proof.
  destruct m; [reflexivity|]. cbn. intros H.
  now apply andb_true_iff in H as [_ ?].
Qed.

Lemma ascending_head m : forall e j b,
  ascending (e :: m) = true -> m !! j = Some b -> from e < from b.
Proof.
  induction m as [|e' m IH]; intros e j b Hasc Hb; [discriminate|].
  pose proof (ascending_tail _ _ Hasc) as Htl.
  cbn in Hasc. apply andb_true_iff in Hasc as [He _].
  apply Z.ltb_lt in He. destruct j as [|j]; cbn in Hb.
  - injection Hb as ->. lia.
  - pose proof (IH e' j b Htl Hb). lia.
Qed.

Lemma ascending_lookup m : forall i j a b,
  ascending m = true -> (i < j)%nat ->
  m !! i = Some a -> m !! j = Some b -> from a < from b.
Proof.
  induction m as [|e m IH]; intros i j a b Hasc Hij Ha Hb; [discriminate|].
  destruct i as [|i], j as [|j]; cbn in Ha, Hb; try lia.
  - injection Ha as ->. eapply ascending_head; eauto.
  - eapply (IH i j); eauto using ascending_tail. lia.
Qed.

(** The closure handed to [sort.Search] by [normRegion] and [normLang]. *)
Lemma alias_search_found (m : list fromTo) (r : Z) (p : nat) (e : fromTo) :
  ascending m = true -> m !! p = Some e -> from e = r ->
  sort_Search (len m)
    (fun i => match m !! Z.to_nat i with
              | Some e => r <=? from e
              | None => false
              end) = Z.of_nat p.
Proof.
  intros Hasc Hp Hr.
  set (f := fun i : Z => _).
  pose proof (lookup_lt_Some _ _ _ Hp) as Hlt.
  assert (Hn : 0 <= len m) by (unfold len; lia).
  assert (Hfp : f (Z.of_nat p) = true).
  { unfold f. rewrite Nat2Z.id, Hp. apply Z.leb_le. lia. }
  assert (Hmono : forall x y, 0 <= x -> x <= y -> y < len m ->
                    f x = true -> f y = true).
  { intros x y Hx Hxy Hy. unfold f, len in *.
    destruct (m !! Z.to_nat x) as [a|] eqn:Ha; [|discriminate].
    destruct (lookup_lt_is_Some_2 m (Z.to_nat y)) as [b Hb]; [lia|].
    rewrite Hb. rewrite !Z.leb_le. intros Hra.
    destruct (Z.eq_dec x y) as [->|Hne]; [congruence|].
    assert (from a < from b)
      by (eapply (ascending_lookup m (Z.to_nat x) (Z.to_nat y)); eauto; lia).
    lia. }
  pose proof (sort_Search_least _ f Hn Hmono) as Hleast.
  destruct (sort_Search_spec _ f Hn) as (Hk & _ & Hhi).
  set (k := sort_Search (len m) f) in *.
  destruct (Z.lt_trichotomy k (Z.of_nat p)) as [Hlt'|[Heq|Hgt]]; auto.
  - (* an earlier entry is strictly smaller than [r] *)
    destruct Hhi as [Hhi|Hhi]; [unfold len in *; lia|].
    unfold f in Hhi.
    destruct (m !! Z.to_nat k) as [a|] eqn:Ha; [|discriminate].
    apply Z.leb_le in Hhi.
    assert (from a < from e)
      by (eapply (ascending_lookup m (Z.to_nat k) p); eauto; lia).
    lia.
  - rewrite Hleast in Hfp by lia. discriminate.
Qed.

(** C1 (as amended). [normRegion] returns [0], not its argument, for a
    region identifier that has no entry in the alias table; when the
    table is strictly ascending in [from], it returns the replacement
    [to] of the entry whose [from] is the identifier. *)
Theorem normRegion_spec (R : Registry) (r : Z) :
  ((forall e, e ∈ regionOldMap R -> from e <> r) -> normRegion R r = 0)
  /\ (forall e, ascending (regionOldMap R) = true ->
                e ∈ regionOldMap R -> from e = r -> normRegion R r = to e).
Proof.
  split.
  - intros Hno. unfold normRegion.
    destruct (_ <? _); [|reflexivity].
    destruct (regionOldMap R !! _) as [e|] eqn:He; [|reflexivity].
    destruct (Z.eqb_spec (from e) r) as [Heq|]; [|reflexivity].
    exfalso. apply (Hno e); [|assumption].
    eapply list_elem_of_lookup_2; eauto.
  - intros e Hasc Hin Hfrom.
    apply list_elem_of_lookup_1 in Hin as [p Hp].
    unfold normRegion.
    rewrite (alias_search_found _ r p e Hasc Hp Hfrom).
    pose proof (lookup_lt_Some _ _ _ Hp) as Hlt.
    destruct (Z.ltb_spec (Z.of_nat p) (len (regionOldMap R))) as [_|Hge];
      [|unfold len in Hge; lia].
    rewrite Nat2Z.id, Hp, Hfrom, Z.eqb_refl. reflexivity.
Qed.

Lemma normRegion_spec_witness :
  normRegion sample 9 = 0 /\ normRegion sample 5 = 8.
Proof.
  split.
  - apply (normRegion_spec sample 9).
    intros e He. apply list_elem_of_In in He. cbn in He.
    destruct He as [<-|[]]. cbn. lia.
  - apply (proj2 (normRegion_spec sample 5) {| from := 5; to := 8 |}).
    + reflexivity.
    + apply list_elem_of_In. cbn. auto.
    + reflexivity.
Defined.

(** C1 fails as stated: region [9] of the sample registry has no alias
    entry, yet [normRegion] does not return it unchanged. *)
Lemma normRegion_not_identity :
  (forall e, e ∈ regionOldMap sample -> from e <> 9)
  /\ normRegion sample 9 = 0 /\ normRegion sample 9 <> 9.
Proof.
  split; [|split].
  - intros e He. apply list_elem_of_In in He. cbn in He.
    destruct He as [<-|[]]. cbn. lia.
  - reflexivity.
  - vm_compute. discriminate.
Qed.

Lemma noChain_spec m e e' :
  noChain m = true -> e ∈ m -> e' ∈ m -> to e <> from e'.
Proof.
  unfold noChain. rewrite forallb_forall. intros H He He'.
  apply list_elem_of_In in He, He'.
  specialize (H e He). rewrite forallb_forall in H.
  specialize (H e' He'). apply negb_true_iff, Z.eqb_neq in H. exact H.
Qed.

Lemma normLang_miss (R : Registry) (x : Z) :
  (forall e, e ∈ langAliasMap R -> from e <> x) ->
  normLang R x = Ret (x, langAliasTypeUnknown R).
Proof.
  intros Hx. unfold normLang.
  destruct (_ <? _); [|reflexivity].
  destruct (langAliasMap R !! _) as [e|] eqn:He; [|reflexivity].
  destruct (Z.eqb_spec (from e) x) as [Heq|]; [|reflexivity].
  exfalso. apply (Hx e); [|assumption].
  eapply list_elem_of_lookup_2; eauto.
Qed.

Lemma normLang_again (R : Registry) (id id' t : Z) :
  noChain (langAliasMap R) = true ->
  normLang R id = Ret (id', t) ->
  normLang R id' = Ret (id', langAliasTypeUnknown R).
Proof.
  intros Hnc H. unfold normLang in H.
  destruct (if _ <? _ then _ else _) as [e|] eqn:He.
  - assert (Hin : e ∈ langAliasMap R).
    { destruct (_ <? _); [|discriminate].
      eapply list_elem_of_lookup_2; eauto. }
    destruct (Z.eqb_spec (from e) id) as [Heq|Hne].
    + destruct (index (langAliasTypes R) _) as [t'| | |]; try discriminate.
      cbn in H. injection H as <- <-.
      apply normLang_miss. intros e' He' Hfrom.
      now apply (noChain_spec _ e e' Hnc Hin He').
    + injection H as <- <-. unfold normLang. rewrite He.
      destruct (Z.eqb_spec (from e) id); [contradiction|reflexivity].
  - injection H as <- <-. unfold normLang. now rewrite He.
Qed.

(** C7 (as amended). When no entry's [to] is itself a [from], applying
    [normLang] to the identifier it returned gives that identifier again,
    so the identifier is a fixed point; the classification of the second
    application is [langAliasTypeUnknown], whatever the first one was.
    Hence the second result equals the first exactly when the first
    classification was [langAliasTypeUnknown], which is the case, in
    particular, for every identifier that has no alias entry. *)
Theorem normLang_fixed_point (R : Registry) (id id' t : Z) :
  noChain (langAliasMap R) = true ->
  normLang R id = Ret (id', t) ->
  normLang R id' = Ret (id', langAliasTypeUnknown R)
  /\ (normLang R id' = normLang R id <-> t = langAliasTypeUnknown R)
  /\ ((forall e, e ∈ langAliasMap R -> from e <> id) ->
      id' = id /\ t = langAliasTypeUnknown R).
Proof.
  intros Hnc H. pose proof (normLang_again R id id' t Hnc H) as Hagain.
  split; [exact Hagain|]. split.
  - rewrite Hagain, H. split; [now intros [= ->]|now intros ->].
  - intros Hmiss. rewrite (normLang_miss R id Hmiss) in H.
    now injection H as <- <-.
Qed.

Lemma normLang_fixed_point_witness :
  normLang sample 9 = Ret (9, langAliasTypeUnknown sample)
  /\ (normLang sample 9 = normLang sample 3 <-> 1 = langAliasTypeUnknown sample)
  /\ ((forall e, e ∈ langAliasMap sample -> from e <> 3) ->
      9 = 3 /\ 1 = langAliasTypeUnknown sample).
Proof.
  apply (normLang_fixed_point sample 3 9 1); reflexivity.
Defined.

(** C7 fails as stated: in the sample registry no [to] is a [from];
    [normLang] maps [3] to [9] with classification [1], and a second
    application returns [9] with the classification
    [langAliasTypeUnknown], which is [-1]. *)
Lemma normLang_classification_changes :
  noChain (langAliasMap sample) = true
  /\ normLang sample 3 = Ret (9, 1)
  /\ normLang sample 9 = Ret (9, -1)
  /\ normLang sample 9 <> normLang sample 3.
Proof. repeat split; try reflexivity. vm_compute. discriminate. Qed.

(** ** Grandfathered tags *)

(** C10. The grandfathered-tag resolver accepts the CLDR-specific string
    [root]: it reports [ok = true] and returns the zero tag, whose
    language identifier is [0]. *)
Theorem grandfathered_root (Make : string -> Tag) (R : Registry) :
  grandfathered Make R "root" = Ret (zeroTag, true)
  /\ Tag_lang zeroTag = 0.
Proof. split; reflexivity. Qed.

(** C8. [grandfathered "en-GB-oed"] succeeds with the tag that [Make]
    builds from the literal [en-GB-x-oed]; and whenever the table value
    [v] of a tag is negative (from [-6] on, the size of the offset table)
    the tag is [Make] of the slice of [altTags] between the offsets
    [altTagIndex[-v-1]] and [altTagIndex[-v]]. *)
Theorem grandfathered_en_GB_oed (Make : string -> Tag) (R : Registry) :
  grandfathered Make R "en-GB-oed" = Ret (Make "en-GB-x-oed"%string, true)
  /\ forall s v,
       grandfatheredMap R !! s = Some v -> -6 <= v < 0 ->
       exists lo hi,
         index altTagIndex (- v - 1) = Ret lo
         /\ index altTagIndex (- v) = Ret hi
         /\ grandfathered Make R s
            = Ret (Make (substring (Z.to_nat lo) (Z.to_nat (hi - lo)) altTags),
                   true).
Proof.
  split; [reflexivity|].
  intros s v Hs Hv. unfold grandfathered. rewrite Hs.
  assert (Hcases : v = -1 \/ v = -2 \/ v = -3 \/ v = -4 \/ v = -5 \/ v = -6)
    by lia.
  destruct Hcases as [->|[->|[->|[->|[->| ->]]]]];
    do 2 eexists; repeat split; reflexivity.
Qed.

Lemma grandfathered_en_GB_oed_witness :
  exists lo hi,
    index altTagIndex (- -3 - 1) = Ret lo
    /\ index altTagIndex (- -3) = Ret hi
    /\ grandfathered (fun _ => zeroTag) sample "i-default"
       = Ret ((fun _ => zeroTag)
                (substring (Z.to_nat lo) (Z.to_nat (hi - lo)) altTags), true).
Proof.
  apply (proj2 (grandfathered_en_GB_oed (fun _ => zeroTag) sample)).
  - reflexivity.
  - lia.
Defined.

(** ** The failure exit of getRegionM49 *)

Lemma copyAt_other (h : list (list Z)) r m p a :
  a <> s_arr r -> copyAt h r m p !!! a = h !!! a.
Proof.
  intros Hne. unfold copyAt.
  now rewrite list_lookup_total_insert_ne by congruence.
Qed.

(** A [Write] on a buffer made by [NewBuffer] over a slice that is as
    long as its array leaves that array as it was: nothing is written
    when [p] is empty, and otherwise the bytes go to a new array. *)
Lemma Buffer_Write_full (L : nat) (p : list Z) :
  let ev := {| s_arr := 0; s_off := 0; s_len := L; s_cap := L |} in
  fst (Buffer_Write [replicate L 0] (NewBuffer ev) p) !!! 0%nat
  = replicate L 0.
Proof.
  intros ev. unfold Buffer_Write, NewBuffer, ev. cbn [buf off s_len s_cap].
  rewrite Nat.sub_diag, Nat.sub_0_r, andb_false_r.
  cbn [buf off s_len s_cap]. rewrite Nat.sub_diag.
  destruct p as [|c p].
  - cbn [length Nat.leb fst]. unfold copyAt, reslice.
    cbn [s_arr s_len s_off length]. rewrite Nat.min_0_r. reflexivity.
  - cbn [length Nat.leb alloc].
    destruct (Nat.leb_spec (S (length p) + L) (L / 2)) as [Hle|Hgt].
    + exfalso. pose proof (Nat.Div0.div_le_upper_bound L 2 L). lia.
    + cbn [fst]. rewrite !copyAt_other by (cbn; lia). reflexivity.
Qed.

(** The model of [Write] does write in place when the slice has room:
    over the empty slice [e.v[:0]] of the same array the digits of [998]
    land in the array. *)
Example Fprint_into_empty_slice :
  fst (Fprint [replicate 8 0]
         (NewBuffer {| s_arr := 0; s_off := 0; s_len := 0; s_cap := 8 |}) 998)
    !!! 0%nat
  = B "998" ++ [0; 0; 0; 0; 0].
Proof. reflexivity. Qed.

Lemma m49Error_zero (R : Registry) (n : Z) :
  m49Error R n = ValueError (replicate (valueErrorLen R) 0).
Proof.
  unfold m49Error, alloc, Fprint. cbn [length app].
  pose proof (Buffer_Write_full (valueErrorLen R) (decimal n)) as H.
  cbn zeta in H.
  destruct (Buffer_Write _ _ _) as [h b]. cbn [fst] in H. now rewrite H.
Qed.

(** C2 (the code does not do what the claim says). The failure exit of
    [getRegionM49] hands [fmt.Fprint] a buffer whose contents already fill
    the array [e.v], so the digits of [n] are appended to a new array and
    the returned [ValueError] holds only zero bytes, for every [n]: the
    payload does not carry the number.  [n = 0], the region string [000],
    takes that exit. *)
Theorem getRegionM49_payload_empty (R : Registry) :
  (forall n, m49Error R n = ValueError (replicate (valueErrorLen R) 0))
  /\ getRegionM49 R 0 = Fail (ValueError (replicate (valueErrorLen R) 0))
  /\ getRegionID R (B "000")
     = Fail (ValueError (replicate (valueErrorLen R) 0))
  /\ getRegionM49 sample 998 = Fail (ValueError [0; 0; 0; 0; 0; 0; 0; 0])
  /\ decimal 998 = B "998".
Proof.
  split; [apply m49Error_zero|].
  assert (H0 : getRegionM49 R 0
               = Fail (ValueError (replicate (valueErrorLen R) 0))).
  { unfold getRegionM49. change (0 <? 0) with false. cbn [andb].
    now rewrite m49Error_zero. }
  split; [exact H0|].
  split; [|split; reflexivity].
  change (getRegionID R (B "000")) with (getRegionM49 R 0). exact H0.
Qed.

(** ** Case fixing *)

Ltac byte_cases :=
  intros;
  unfold isLetter, isLower, isUpper, isDigit, upperByte, lowerByte,
         isLetter, isLower, isUpper in *;
  repeat match goal with
         | |- context [?a <=? ?b] =>
             first [is_var a | is_var b]; destruct (Z.leb_spec a b)
         | H : context [?a <=? ?b] |- _ =>
             first [is_var a | is_var b]; destruct (Z.leb_spec a b)
         end;
  cbn [andb orb negb] in *;
  repeat match goal with
         | |- context [?a <=? ?b] => destruct (Z.leb_spec a b)
         end;
  cbn [andb orb negb] in *; try reflexivity; try discriminate; try lia.

Lemma isLetter_upperByte c : isLetter (upperByte c) = isLetter c.
Proof. byte_cases. Qed.

Lemma isLetter_lowerByte c : isLetter (lowerByte c) = isLetter c.
Proof. byte_cases. Qed.

Lemma isDigit_upperByte c : isDigit (upperByte c) = isDigit c.
Proof. byte_cases. Qed.

Lemma isDigit_lowerByte c : isDigit (lowerByte c) = isDigit c.
Proof. byte_cases. Qed.

Lemma upperByte_idem c : upperByte (upperByte c) = upperByte c.
Proof. byte_cases. Qed.

Lemma lowerByte_idem c : lowerByte (lowerByte c) = lowerByte c.
Proof. byte_cases. Qed.

Lemma upperByte_lowerByte c : upperByte (lowerByte c) = upperByte c.
Proof. byte_cases. Qed.

Lemma lowerByte_upperByte c : lowerByte (upperByte c) = lowerByte c.
Proof. byte_cases. Qed.

Lemma isDigit_not_letter c : isDigit c = true -> isLetter c = false.
Proof. byte_cases. Qed.

Lemma isDigit_upperByte_id c : isDigit c = true -> upperByte c = c.
Proof. byte_cases. Qed.

Lemma isDigit_lowerByte_id c : isDigit c = true -> lowerByte c = c.
Proof. byte_cases. Qed.

Lemma isLower_lowerByte_id c : isLower c = true -> lowerByte c = c.
Proof. byte_cases. Qed.

Lemma isUpper_upperByte_id c : isUpper c = true -> upperByte c = c.
Proof. byte_cases. Qed.

Lemma fixByte_upperByte f c : fixByte f (upperByte c) = fixByte f c.
Proof.
  unfold fixByte.
  rewrite isLetter_upperByte, upperByte_idem, lowerByte_upperByte,
          isDigit_upperByte.
  destruct (isUpper f), (isLower f), (isDigit f), (isLetter c),
           (isDigit c) eqn:Hd; try reflexivity;
    now rewrite (isDigit_upperByte_id c Hd).
Qed.

Lemma fixByte_lowerByte f c : fixByte f (lowerByte c) = fixByte f c.
Proof.
  unfold fixByte.
  rewrite isLetter_lowerByte, lowerByte_idem, upperByte_lowerByte,
          isDigit_lowerByte.
  destruct (isUpper f), (isLower f), (isDigit f), (isLetter c),
           (isDigit c) eqn:Hd; try reflexivity;
    now rewrite (isDigit_lowerByte_id c Hd).
Qed.

(** [FixCase] does not see the case of its input. *)
Lemma FixCase_toUpper form : forall s, FixCase form (toUpper s) = FixCase form s.
Proof.
  induction form as [|f form IH]; intros [|c s]; cbn; try reflexivity.
  now rewrite fixByte_upperByte, IH.
Qed.

Lemma FixCase_toLower form : forall s, FixCase form (toLower s) = FixCase form s.
Proof.
  induction form as [|f form IH]; intros [|c s]; cbn; try reflexivity.
  now rewrite fixByte_lowerByte, IH.
Qed.

(** A digit never passes a template made of letters. *)
Lemma FixCase_digit form : forall s,
  Forall (fun f => isLetter f = true) form ->
  Exists (fun c => isDigit c = true) s ->
  FixCase form s = None.
Proof.
  induction form as [|f form IH]; intros [|c s] Hform Hs; cbn;
    try reflexivity; try (now inversion Hs).
  inversion Hform as [|? ? Hf Hform']; subst.
  inversion Hs as [? ? Hc|? ? Hs']; subst.
  - unfold fixByte. rewrite (isDigit_not_letter c Hc).
    unfold isLetter in Hf.
    destruct (isUpper f); [reflexivity|].
    destruct (isLower f); [reflexivity|discriminate].
  - rewrite (IH s Hform' Hs'). now destruct (fixByte f c).
Qed.

Lemma FixCase_length form : forall s r,
  FixCase form s = Some r -> length form = length s /\ length r = length s.
Proof.
  induction form as [|f form IH]; intros [|c s] r H; cbn in H;
    try discriminate.
  - injection H as <-. auto.
  - destruct (fixByte f c); [|discriminate].
    destruct (FixCase form s) as [r'|] eqn:Hr; [|discriminate].
    injection H as <-. destruct (IH s r' Hr). cbn. auto.
Qed.

(** On letters, an upper-case template upper-cases and a lower-case
    template lower-cases. *)
Lemma FixCase_upper form : forall s,
  Forall (fun f => isUpper f = true) form ->
  Forall (fun c => isLetter c = true) s ->
  length form = length s ->
  FixCase form s = Some (toUpper s).
Proof.
  induction form as [|f form IH]; intros [|c s] Hform Hs Hlen;
    try discriminate; [reflexivity|].
  inversion Hform; inversion Hs; subst. cbn in Hlen.
  cbn. unfold fixByte.
  replace (isUpper f) with true by (symmetry; assumption).
  replace (isLetter c) with true by (symmetry; assumption).
  rewrite IH by (auto; lia). reflexivity.
Qed.

Lemma FixCase_lower form : forall s,
  Forall (fun f => isLower f = true) form ->
  Forall (fun c => isLetter c = true) s ->
  length form = length s ->
  FixCase form s = Some (toLower s).
Proof.
  induction form as [|f form IH]; intros [|c s] Hform Hs Hlen;
    try discriminate; [reflexivity|].
  inversion Hform as [|? ? Hf ?]; inversion Hs; subst. cbn in Hlen.
  cbn. unfold fixByte.
  assert (isUpper f = false) as -> by (clear - Hf; byte_cases).
  rewrite Hf.
  replace (isLetter c) with true by (symmetry; assumption).
  rewrite IH by (auto; lia). reflexivity.
Qed.

Lemma toLower_lower s :
  Forall (fun c => isLower c = true) s -> toLower s = s.
Proof.
  induction 1 as [|c s Hc _ IH]; [reflexivity|].
  unfold toLower in *. cbn [List.map].
  now rewrite IH, (isLower_lowerByte_id c Hc).
Qed.

Lemma toUpper_upper s :
  Forall (fun c => isUpper c = true) s -> toUpper s = s.
Proof.
  induction 1 as [|c s Hc _ IH]; [reflexivity|].
  unfold toUpper in *. cbn [List.map].
  now rewrite IH, (isUpper_upperByte_id c Hc).
Qed.

Lemma parseDigits_toUpper s : forall acc,
  parseDigits (toUpper s) acc = parseDigits s acc.
Proof.
  induction s as [|c s IH]; intros acc; [reflexivity|]. cbn.
  rewrite isDigit_upperByte. destruct (isDigit c) eqn:Hc; [|reflexivity].
  now rewrite (isDigit_upperByte_id c Hc), IH.
Qed.

Lemma parseDigits_toLower s : forall acc,
  parseDigits (toLower s) acc = parseDigits s acc.
Proof.
  induction s as [|c s IH]; intros acc; [reflexivity|]. cbn.
  rewrite isDigit_lowerByte. destruct (isDigit c) eqn:Hc; [|reflexivity].
  now rewrite (isDigit_lowerByte_id c Hc), IH.
Qed.

Lemma parseDigits_Some s : forall acc n,
  parseDigits s acc = Some n -> Forall (fun c => isDigit c = true) s.
Proof.
  induction s as [|c s IH]; intros acc n H; [constructor|]. cbn in H.
  destruct (isDigit c) eqn:Hc; [|discriminate]. constructor; eauto.
Qed.

Lemma ParseUint10_Some s bits n :
  ParseUint10 s bits = Some n -> Forall (fun c => isDigit c = true) s.
Proof.
  unfold ParseUint10. destruct s as [|c s]; [discriminate|].
  destruct (parseDigits (c :: s) 0) eqn:H; [|discriminate].
  intros _. eapply parseDigits_Some; eauto.
Qed.

Lemma ParseUint10_toUpper s bits :
  ParseUint10 (toUpper s) bits = ParseUint10 s bits.
Proof.
  unfold ParseUint10. rewrite parseDigits_toUpper. now destruct s.
Qed.

Lemma ParseUint10_toLower s bits :
  ParseUint10 (toLower s) bits = ParseUint10 s bits.
Proof.
  unfold ParseUint10. rewrite parseDigits_toLower. now destruct s.
Qed.

Lemma length_toUpper s : length (toUpper s) = length s.
Proof. apply List.length_map. Qed.

Lemma length_toLower s : length (toLower s) = length s.
Proof. apply List.length_map. Qed.

Lemma findIndex_toUpper idx s form :
  findIndex idx (toUpper s) form = findIndex idx s form.
Proof. unfold findIndex. now rewrite FixCase_toUpper. Qed.

Lemma findIndex_toLower idx s form :
  findIndex idx (toLower s) form = findIndex idx s form.
Proof. unfold findIndex. now rewrite FixCase_toLower. Qed.

Lemma getLangID_toUpper R s : getLangID R (toUpper s) = getLangID R s.
Proof.
  unfold getLangID, getLangISO2, getLangISO3, len.
  now rewrite length_toUpper, !FixCase_toUpper.
Qed.

Lemma getLangID_toLower R s : getLangID R (toLower s) = getLangID R s.
Proof.
  unfold getLangID, getLangISO2, getLangISO3, len.
  now rewrite length_toLower, !FixCase_toLower.
Qed.

Lemma getRegionID_toUpper R s : getRegionID R (toUpper s) = getRegionID R s.
Proof.
  unfold getRegionID, getRegionISO2, getRegionISO3, len.
  rewrite length_toUpper, ParseUint10_toUpper, findIndex_toUpper,
          FixCase_toUpper.
  destruct s as [|c s]; [reflexivity|].
  change (index (toUpper (c :: s)) 0) with (@Ret Z (upperByte c)).
  change (index (c :: s) 0) with (@Ret Z c).
  unfold isAlpha. cbn [mbind outcome_bind].
  now rewrite isLetter_upperByte.
Qed.

Lemma getRegionID_toLower R s : getRegionID R (toLower s) = getRegionID R s.
Proof.
  unfold getRegionID, getRegionISO2, getRegionISO3, len.
  rewrite length_toLower, ParseUint10_toLower, findIndex_toLower,
          FixCase_toLower.
  destruct s as [|c s]; [reflexivity|].
  change (index (toLower (c :: s)) 0) with (@Ret Z (lowerByte c)).
  change (index (c :: s) 0) with (@Ret Z c).
  unfold isAlpha. cbn [mbind outcome_bind].
  now rewrite isLetter_lowerByte.
Qed.

Lemma findIndex_digit idx s form :
  Forall (fun f => isLetter f = true) form ->
  Exists (fun c => isDigit c = true) s ->
  findIndex idx s form = Fail errSyntax.
Proof. intros Hf Hs. unfold findIndex. now rewrite FixCase_digit. Qed.

Lemma letters_zz : Forall (fun f => isLetter f = true) (B "zz").
Proof. repeat constructor. Qed.
Lemma letters_und : Forall (fun f => isLetter f = true) (B "und").
Proof. repeat constructor. Qed.
Lemma letters_ZZ : Forall (fun f => isLetter f = true) (B "ZZ").
Proof. repeat constructor. Qed.
Lemma letters_ZZZ : Forall (fun f => isLetter f = true) (B "ZZZ").
Proof. repeat constructor. Qed.
Lemma letters_Zzzz : Forall (fun f => isLetter f = true) (B "Zzzz").
Proof. repeat constructor. Qed.
Lemma letters_XXX : Forall (fun f => isLetter f = true) (B "XXX").
Proof. repeat constructor. Qed.

Lemma getRegionISO2_digit R s :
  Exists (fun c => isDigit c = true) s -> getRegionISO2 R s = Fail errSyntax.
Proof.
  intros Hs. unfold getRegionISO2.
  now rewrite (findIndex_digit _ _ _ letters_ZZ Hs).
Qed.

Lemma getRegionISO2_length R s :
  length s <> 2%nat -> getRegionISO2 R s = Fail errSyntax.
Proof.
  intros Hs. unfold getRegionISO2, findIndex.
  destruct (FixCase (B "ZZ") s) as [r|] eqn:Hr; [|reflexivity].
  apply FixCase_length in Hr as [Hr _]. cbn in Hr. congruence.
Qed.

Lemma getRegionISO3_digit R s :
  Exists (fun c => isDigit c = true) s -> getRegionISO3 R s = Fail errSyntax.
Proof.
  intros Hs. unfold getRegionISO3.
  now rewrite (FixCase_digit _ _ letters_ZZZ Hs).
Qed.

Lemma getRegionID_digit R s :
  Exists (fun c => isDigit c = true) s ->
  ~ (length s = 3%nat /\ Forall (fun c => isDigit c = true) s) ->
  getRegionID R s = Fail errSyntax.
Proof.
  intros Hs Hnum. unfold getRegionID.
  destruct (Z.eqb_spec (len s) 3) as [Hlen|Hlen].
  - destruct s as [|c s]; [discriminate|].
    change (index (c :: s) 0) with (@Ret Z c).
    cbn [mbind outcome_bind].
    destruct (isAlpha c); [now apply getRegionISO3_digit|].
    destruct (ParseUint10 (c :: s) 10) as [n|] eqn:Hp.
    + exfalso. apply Hnum. split; [unfold len in Hlen; lia|].
      eapply ParseUint10_Some; eauto.
    + now apply getRegionISO2_digit.
  - now apply getRegionISO2_digit.
Qed.

(** C6. Resolution does not depend on the case of the code: the
    language, region, script and currency resolvers return the same
    outcome for [s], for [s] in upper case and for [s] in lower case; and
    a code with a digit is a syntax failure for every resolver that
    matches it against a template of letters (for regions, every code
    except the three-digit ones, which are numeric codes). *)
Theorem resolve_case_insensitive (R : Registry) (idx s : list Z) :
  (getLangID R (toUpper s) = getLangID R s
   /\ getLangID R (toLower s) = getLangID R s
   /\ getRegionID R (toUpper s) = getRegionID R s
   /\ getRegionID R (toLower s) = getRegionID R s
   /\ getScriptID idx (toUpper s) = getScriptID idx s
   /\ getScriptID idx (toLower s) = getScriptID idx s
   /\ getCurrencyID idx (toUpper s) = getCurrencyID idx s
   /\ getCurrencyID idx (toLower s) = getCurrencyID idx s)
  /\ (Exists (fun c => isDigit c = true) s ->
      getLangID R s = Fail errSyntax
      /\ getScriptID idx s = Fail errSyntax
      /\ getCurrencyID idx s = Fail errSyntax
      /\ getRegionISO2 R s = Fail errSyntax
      /\ getRegionISO3 R s = Fail errSyntax
      /\ (~ (length s = 3%nat /\ Forall (fun c => isDigit c = true) s) ->
          getRegionID R s = Fail errSyntax)).
Proof.
  split.
  - repeat split;
      auto using getLangID_toUpper, getLangID_toLower, getRegionID_toUpper,
                 getRegionID_toLower;
      unfold getScriptID, getCurrencyID;
      now rewrite ?findIndex_toUpper, ?findIndex_toLower.
  - intros Hs. repeat split.
    + unfold getLangID, getLangISO2, getLangISO3.
      rewrite (FixCase_digit _ _ letters_zz Hs),
              (FixCase_digit _ _ letters_und Hs).
      now destruct (_ =? _).
    + unfold getScriptID.
      now rewrite (findIndex_digit _ _ _ letters_Zzzz Hs).
    + unfold getCurrencyID.
      now rewrite (findIndex_digit _ _ _ letters_XXX Hs).
    + now apply getRegionISO2_digit.
    + now apply getRegionISO3_digit.
    + now apply getRegionID_digit.
Qed.

Lemma resolve_case_insensitive_witness :
  getLangID sample (B "e1") = Fail errSyntax
  /\ getRegionID sample (B "U5") = Fail errSyntax
  /\ getLangID sample (toUpper (B "eNg")) = getLangID sample (B "eNg").
Proof.
  assert (H1 : Exists (fun c => isDigit c = true) (B "e1"))
    by (apply Exists_cons_tl, Exists_cons_hd; reflexivity).
  assert (H2 : Exists (fun c => isDigit c = true) (B "U5"))
    by (apply Exists_cons_tl, Exists_cons_hd; reflexivity).
  split; [|split].
  - exact (proj1 (proj2 (resolve_case_insensitive sample (script sample)
                           (B "e1")) H1)).
  - apply (proj2 (resolve_case_insensitive sample (script sample) (B "U5")) H2).
    intros [Hlen _]. discriminate Hlen.
  - exact (proj1 (proj1 (resolve_case_insensitive sample (script sample)
                           (B "eNg")))).
Defined.

(** ** The lexicographic comparison *)

Lemma cmp_refl a : cmp a a = 0.
Proof. induction a as [|x a IH]; cbn; [reflexivity|]. now rewrite Z.ltb_irrefl. Qed.

Lemma cmp_cases a : forall b, cmp a b = -1 \/ cmp a b = 0 \/ cmp a b = 1.
Proof.
  induction a as [|u a IH]; intros [|v b]; cbn; auto.
  destruct (v <? u); auto. destruct (u <? v); auto.
Qed.

Lemma cmp_eq a : forall b, cmp a b = 0 -> a = b.
Proof.
  induction a as [|x a IH]; intros [|y b]; cbn; try discriminate; auto.
  destruct (Z.ltb_spec y x); [discriminate|].
  destruct (Z.ltb_spec x y); [discriminate|].
  intros Hc. f_equal; [lia|auto].
Qed.

Lemma cmp_antisym a : forall b, cmp b a = - cmp a b.
Proof.
  induction a as [|x a IH]; intros [|y b]; cbn; try reflexivity.
  destruct (Z.ltb_spec y x), (Z.ltb_spec x y); try reflexivity; try lia.
  apply IH.
Qed.

Lemma cmp_le_trans a : forall b c,
  cmp a b <> 1 -> cmp b c <> 1 -> cmp a c <> 1.
Proof.
  induction a as [|x a IH]; intros [|y b] [|z c]; cbn; try congruence.
  destruct (Z.ltb_spec y x); [congruence|].
  destruct (Z.ltb_spec z y); [congruence|].
  destruct (Z.ltb_spec z x); [lia|].
  destruct (Z.ltb_spec x z); [discriminate|].
  destruct (Z.ltb_spec x y); [lia|].
  destruct (Z.ltb_spec y z); [lia|].
  apply IH.
Qed.

(** ** Fixed-width sorted indexes *)

Lemma recPrefix_take s i k :
  0 <= k <= 4 -> recPrefix s i k = take (Z.to_nat k) (recPrefix s i 4).
Proof.
  intros Hk. unfold recPrefix. rewrite take_take. f_equal. lia.
Qed.

Lemma recPrefix_length s i :
  0 <= i < len s / 4 -> length (recPrefix s i 4) = 4%nat.
Proof.
  intros Hi. unfold recPrefix, len in *.
  rewrite length_take, length_drop.
  assert (4 * (i + 1) <= Z.of_nat (length s)).
  { pose proof (Z.mul_div_le (Z.of_nat (length s)) 4). nia. }
  lia.
Qed.

Lemma Elem_recPrefix s i :
  0 <= i < len s / 4 -> Elem s i = Ret (recPrefix s i 4).
Proof.
  intros Hi. unfold Elem, slice, recPrefix, len in *.
  assert (4 * (i + 1) <= Z.of_nat (length s)).
  { pose proof (Z.mul_div_le (Z.of_nat (length s)) 4). nia. }
  destruct (Z.leb_spec 0 (i * 4)); [|lia].
  destruct (Z.leb_spec (i * 4) (i * 4 + 4)); [|lia].
  destruct (Z.leb_spec (i * 4 + 4) (Z.of_nat (length s))); [|lia].
  cbn. do 3 f_equal; lia.
Qed.

Lemma Elem_Ret s i e :
  Elem s i = Ret e -> 0 <= i < len s / 4 /\ e = recPrefix s i 4.
Proof.
  unfold Elem, slice, recPrefix, len.
  destruct (Z.leb_spec 0 (i * 4)); [|discriminate].
  destruct (Z.leb_spec (i * 4) (i * 4 + 4)); [|discriminate].
  destruct (Z.leb_spec (i * 4 + 4) (Z.of_nat (length s))); [|discriminate].
  cbn. intros [= <-]. split.
  - assert (i + 1 <= Z.of_nat (length s) / 4)
      by (apply Z.div_le_lower_bound; lia).
    lia.
  - do 2 f_equal; lia.
Qed.

Lemma sortedOn_adjacent k s i :
  sortedOn k s = true -> 0 <= i -> i + 1 < len s / 4 ->
  cmp (recPrefix s i k) (recPrefix s (i + 1) k) <> 1.
Proof.
  unfold sortedOn. rewrite forallb_forall. intros H Hi Hn.
  specialize (H i). rewrite negb_true_iff, Z.eqb_neq in H.
  apply H, list_elem_of_In, elem_of_seqZ. lia.
Qed.

Lemma sortedOn_le k s i j :
  sortedOn k s = true -> 0 <= i -> i <= j -> j < len s / 4 ->
  cmp (recPrefix s i k) (recPrefix s j k) <> 1.
Proof.
  intros Hs Hi Hij Hj.
  replace j with (i + Z.of_nat (Z.to_nat (j - i))) in * by lia.
  generalize dependent (Z.to_nat (j - i)). intros d _ Hj.
  induction d as [|d IH].
  - rewrite Z.add_0_r, cmp_refl. discriminate.
  - apply cmp_le_trans with (b := recPrefix s (i + Z.of_nat d) k).
    + apply IH. lia.
    + replace (i + Z.of_nat (S d)) with (i + Z.of_nat d + 1) by lia.
      apply sortedOn_adjacent; auto; lia.
Qed.

(** In a table sorted on the key length, [Index] finds the first of the
    records that have the key as prefix, and the records from there to
    any other such record all have it. *)
Lemma Index_Index_spec s key t :
  sortedOn (len key) s = true ->
  0 <= t < len s / 4 ->
  recPrefix s t (len key) = key ->
  let j := Index_Index s key in
  0 <= j <= t
  /\ (forall x, j <= x <= t -> recPrefix s x (len key) = key)
  /\ (forall x, 0 <= x < j -> recPrefix s x (len key) <> key).
Proof.
  intros Hs Ht Hkey. unfold Index_Index.
  set (n := len s / 4) in *. set (k := len key) in *.
  set (f := fun i : Z => negb (cmp (recPrefix s i k) key =? -1)).
  assert (Hn : 0 <= n) by lia.
  assert (Hge : forall x, f x = true <-> cmp key (recPrefix s x k) <> 1).
  { intros x. unfold f. rewrite negb_true_iff, Z.eqb_neq, (cmp_antisym key).
    lia. }
  assert (Hmono : forall x y, 0 <= x -> x <= y -> y < n ->
                    f x = true -> f y = true).
  { intros x y Hx Hxy Hy. rewrite !Hge. intros Hfx.
    eapply cmp_le_trans; [exact Hfx|]. now apply sortedOn_le. }
  assert (Hft : f t = true).
  { apply Hge. rewrite Hkey, cmp_refl. discriminate. }
  pose proof (sort_Search_least n f Hn Hmono) as Hleast.
  destruct (sort_Search_spec n f Hn) as (Hj & _ & Hhi).
  set (j := sort_Search n f) in *.
  assert (Hjt : j <= t).
  { destruct (Z.le_gt_cases j t) as [|Hgt]; [assumption|].
    rewrite Hleast in Hft by lia. discriminate. }
  assert (Hrun : forall x, j <= x <= t -> recPrefix s x k = key).
  { intros x Hx. apply cmp_eq.
    assert (Hfx : f x = true) by (destruct Hhi; [lia|apply (Hmono j); auto; lia]).
    apply Hge in Hfx.
    assert (Hxt : cmp (recPrefix s x k) (recPrefix s t k) <> 1)
      by (apply sortedOn_le; auto; lia).
    rewrite Hkey in Hxt.
    rewrite (cmp_antisym (recPrefix s x k) key) in Hfx.
    destruct (cmp_cases (recPrefix s x k) key) as [?|[?|?]]; lia. }
  destruct (Z.ltb_spec j n) as [_|]; [|lia].
  rewrite (Hrun j) by lia. rewrite cmp_refl. cbn.
  repeat split; auto; try lia.
  intros x Hx Heq. specialize (Hleast x Hx).
  assert (f x = true); [|congruence].
  apply Hge. rewrite Heq, cmp_refl. discriminate.
Qed.

(** A record that is not preceded by a record with the same prefix is
    the one [Index] returns. *)
Lemma Index_Index_first s key t :
  sortedOn (len key) s = true ->
  0 <= t < len s / 4 ->
  recPrefix s t (len key) = key ->
  (t = 0 \/ recPrefix s (t - 1) (len key) <> key) ->
  Index_Index s key = t.
Proof.
  intros Hs Ht Hkey Hprev.
  destruct (Index_Index_spec s key t Hs Ht Hkey) as (Hj & Hrun & _).
  destruct Hprev as [->|Hprev]; [lia|].
  destruct (Z.eq_dec (Index_Index s key) t) as [|Hne]; [assumption|].
  destruct Hprev. apply Hrun. lia.
Qed.

(** A hit of [Index] is a slot whose record has the key as prefix. *)
Lemma Index_Index_hit s key :
  Index_Index s key <> -1 ->
  0 <= Index_Index s key < len s / 4
  /\ recPrefix s (Index_Index s key) (len key) = key.
Proof.
  unfold Index_Index.
  assert (Hn : 0 <= len s / 4) by (unfold len; apply Z.div_pos; lia).
  destruct (sort_Search_spec (len s / 4)
              (fun i => negb (cmp (recPrefix s i (len key)) key =? -1)) Hn)
    as (Hj & _).
  destruct (Z.ltb_spec (sort_Search (len s / 4)
              (fun i => negb (cmp (recPrefix s i (len key)) key =? -1)))
              (len s / 4)); cbn; [|congruence].
  destruct (Z.eqb_spec (cmp (recPrefix s (sort_Search (len s / 4)
              (fun i => negb (cmp (recPrefix s i (len key)) key =? -1)))
              (len key)) key) 0) as [Heq|]; [|congruence].
  intros _. split; [lia|]. now apply cmp_eq.
Qed.

Lemma record_shape s i :
  0 <= i < len s / 4 -> exists a b c d, recPrefix s i 4 = [a; b; c; d].
Proof.
  intros Hi. pose proof (recPrefix_length s i Hi) as Hlen.
  destruct (recPrefix s i 4) as [|a [|b [|c [|d [|? ?]]]]]; try discriminate.
  eauto.
Qed.

Lemma records_lookup s i :
  0 <= i < len s / 4 -> records s !! Z.to_nat i = Some (recPrefix s i 4).
Proof.
  intros Hi. unfold records. rewrite list_lookup_fmap.
  rewrite lookup_seqZ_lt by lia. cbn. do 2 f_equal. lia.
Qed.

Lemma distinctRecords_inj s i j :
  distinctRecords s = true ->
  0 <= i < len s / 4 -> 0 <= j < len s / 4 ->
  recPrefix s i 4 = recPrefix s j 4 -> i = j.
Proof.
  intros Hd Hi Hj Heq. apply bool_decide_eq_true_1 in Hd.
  assert (Z.to_nat i = Z.to_nat j); [|lia].
  eapply NoDup_lookup; eauto using records_lookup.
  rewrite Heq. now apply records_lookup.
Qed.

(** The scan [for i := idx.Index(key); i != -1; i = idx.Next(key, i)]
    walks up slot by slot through the records with prefix [key]; it
    returns what the body returns at the first slot where the body
    returns at all. *)
Lemma forNext_reach {A} idx key (body : Z -> outcome (option A)) a t :
  0 <= t < len idx / 4 ->
  body t = Ret (Some a) ->
  forall fuel j,
    0 <= j <= t -> t - j < Z.of_nat fuel ->
    (forall x, j <= x <= t -> recPrefix idx x (len key) = key) ->
    (forall x, j <= x < t -> body x = Ret None) ->
    forNext fuel idx key body j = Ret (Some a).
Proof.
  intros Ht Hbody. induction fuel as [|fuel IH]; intros j Hj Hfuel Hrun Hnone;
    [lia|].
  cbn [forNext]. destruct (Z.eqb_spec j (-1)); [lia|].
  destruct (Z.eq_dec j t) as [->|Hne].
  - now rewrite Hbody.
  - rewrite Hnone by lia. cbn [mbind outcome_bind].
    assert (HNext : Index_Next idx key j = j + 1).
    { unfold Index_Next.
      assert (4 * (t + 1) <= len idx).
      { pose proof (Z.mul_div_le (len idx) 4). nia. }
      destruct (Z.ltb_spec ((j + 1) * 4) (len idx)); [|lia].
      rewrite Hrun by lia. now rewrite cmp_refl. }
    rewrite HNext. apply IH; try lia; intros; [apply Hrun|apply Hnone]; lia.
Qed.

Lemma forIndex_reach {A} idx key (body : Z -> outcome (option A)) a t :
  sortedOn (len key) idx = true ->
  0 <= t < len idx / 4 ->
  recPrefix idx t (len key) = key ->
  body t = Ret (Some a) ->
  (forall x, 0 <= x < t -> recPrefix idx x (len key) = key ->
             body x = Ret None) ->
  forIndex idx key body = Ret (Some a).
Proof.
  intros Hs Ht Hkey Hbody Hnone. unfold forIndex.
  destruct (Index_Index_spec idx key t Hs Ht Hkey) as (Hj & Hrun & _).
  apply forNext_reach with (t := t); auto.
  - assert (len idx / 4 <= len idx)
      by (unfold len; apply Z.div_le_upper_bound; lia).
    unfold len in *. lia.
  - intros x Hx. apply Hnone; [lia|]. apply Hrun. lia.
Qed.

(** ** Which failures the region resolver reports *)

Lemma index_not_Fail {A} (l : list A) i e : index l i <> Fail e.
Proof.
  unfold index. destruct (i <? 0); [discriminate|].
  destruct (l !! Z.to_nat i); discriminate.
Qed.

Lemma slice_not_Fail {A} (l : list A) lo hi e : slice l lo hi <> Fail e.
Proof. unfold slice. destruct (_ && _); discriminate. Qed.

Lemma bind_not_Fail {A C} (m : outcome A) (k : A -> outcome C) e :
  (forall e, m <> Fail e) -> (forall a e, k a <> Fail e) -> m ≫= k <> Fail e.
Proof.
  intros Hm Hk. destruct m as [a|e'| |]; cbn; try discriminate.
  - apply Hk.
  - now destruct (Hm e').
Qed.

(** The prefix scans and the alternate-table scan report no error of
    their own. *)
Lemma forNext_not_Fail {A} idx key (body : Z -> outcome (option A)) fuel :
  (forall i e, body i <> Fail e) ->
  forall i e, forNext fuel idx key body i <> Fail e.
Proof.
  intros Hbody. induction fuel as [|fuel IH]; intros i e; cbn.
  - destruct (_ =? _); discriminate.
  - destruct (_ =? _); [discriminate|].
    apply bind_not_Fail; [apply Hbody|].
    intros [a|] e'; [discriminate|apply IH].
Qed.

Lemma altRegionScan_not_Fail R s fuel : forall i e,
  altRegionScan fuel R s i <> Fail e.
Proof.
  induction fuel as [|fuel IH]; intros i e; cbn.
  - destruct (_ <? _); discriminate.
  - destruct (_ <? _); [|discriminate].
    apply bind_not_Fail; [intros; apply slice_not_Fail|].
    intros a e'. destruct (_ =? _); [|apply IH].
    apply bind_not_Fail; [intros; apply index_not_Fail|discriminate].
Qed.

Lemma getRegionISO3_letters R s e :
  length s = 3%nat -> Forall (fun c => isLetter c = true) s ->
  getRegionISO3 R s = Fail e -> e = errInvalid (toUpper s).
Proof.
  intros Hlen Hs. unfold getRegionISO3.
  rewrite (FixCase_upper (B "ZZZ") s) by (auto; repeat constructor).
  intros H.
  destruct (slice (toUpper s) 0 1) as [s0|e0| |] eqn:E0;
    cbn [mbind outcome_bind] in H; try discriminate;
    [|now destruct (slice_not_Fail _ _ _ _ E0)].
  destruct (index (toUpper s) 1) as [c1|e1| |] eqn:E1;
    cbn [mbind outcome_bind] in H; try discriminate;
    [|now destruct (index_not_Fail _ _ _ E1)].
  destruct (index (toUpper s) 2) as [c2|e2| |] eqn:E2;
    cbn [mbind outcome_bind] in H; try discriminate;
    [|now destruct (index_not_Fail _ _ _ E2)].
  destruct (forIndex _ _ _) as [[id|]|e3| |] eqn:E3;
    cbn [mbind outcome_bind] in H; try discriminate.
  - destruct (altRegionScan _ _ _ _) as [[id|]|e4| |] eqn:E4;
      cbn [mbind outcome_bind] in H; try discriminate.
    + now injection H as <-.
    + now destruct (altRegionScan_not_Fail _ _ _ _ _ E4).
  - exfalso. revert E3. unfold forIndex. apply forNext_not_Fail.
    intros i e''.
    repeat (apply bind_not_Fail;
            [intros; first [apply slice_not_Fail | apply index_not_Fail]
            |intros]).
    destruct (_ && _); discriminate.
Qed.

(** *** The scans always come to an end *)

Lemma index_not_Timeout {A} (l : list A) i : index l i <> Timeout.
Proof.
  unfold index. destruct (i <? 0); [discriminate|].
  destruct (l !! Z.to_nat i); discriminate.
Qed.

Lemma slice_not_Timeout {A} (l : list A) lo hi : slice l lo hi <> Timeout.
Proof. unfold slice. destruct (_ && _); discriminate. Qed.

Lemma bind_not_Timeout {A C} (m : outcome A) (k : A -> outcome C) :
  m <> Timeout -> (forall a, k a <> Timeout) -> m ≫= k <> Timeout.
Proof.
  intros Hm Hk. destruct m as [a|e'| |]; cbn; try discriminate;
    [apply Hk|contradiction].
Qed.

Lemma Index_Next_range idx key i :
  0 <= i -> Index_Next idx key i = -1
            \/ (Index_Next idx key i = i + 1 /\ 4 * (i + 1) < len idx).
Proof.
  intros Hi. unfold Index_Next.
  destruct (Z.ltb_spec ((i + 1) * 4) (len idx)); cbn; auto.
  destruct (_ =? _); auto. right. split; lia.
Qed.

(** The fuel of [forIndex] is enough: each turn moves one slot up. *)
Lemma forNext_not_Timeout {A} idx key (body : Z -> outcome (option A)) :
  (forall i, body i <> Timeout) ->
  forall fuel i,
    i = -1 \/ (0 <= i /\ 4 * i < len idx /\ len idx - 4 * i <= Z.of_nat fuel) ->
    forNext fuel idx key body i <> Timeout.
Proof.
  intros Hbody. induction fuel as [|fuel IH]; intros i Hi; cbn [forNext].
  - destruct (Z.eqb_spec i (-1)); [discriminate|]. lia.
  - destruct (Z.eqb_spec i (-1)); [discriminate|].
    destruct Hi as [|(Hi0 & Hi4 & Hfuel)]; [contradiction|].
    apply bind_not_Timeout; [apply Hbody|].
    intros [a|]; [discriminate|]. apply IH.
    destruct (Index_Next_range idx key i Hi0) as [->|[-> Hnext]]; [auto|].
    right. lia.
Qed.

Lemma forIndex_not_Timeout {A} idx key (body : Z -> outcome (option A)) :
  (forall i, body i <> Timeout) -> forIndex idx key body <> Timeout.
Proof.
  intros Hbody. unfold forIndex. apply forNext_not_Timeout; auto.
  destruct (Z.eq_dec (Index_Index idx key) (-1)) as [|Hne]; [auto|right].
  destruct (Index_Index_hit idx key Hne) as [Hin _].
  pose proof (Z.mul_div_le (len idx) 4). unfold len in *. lia.
Qed.

Lemma altRegionScan_not_Timeout R s : forall fuel i,
  0 <= i -> len (altRegionISO3 R) - i <= Z.of_nat fuel ->
  altRegionScan fuel R s i <> Timeout.
Proof.
  induction fuel as [|fuel IH]; intros i Hi Hfuel; cbn [altRegionScan].
  - destruct (Z.ltb_spec i (len (altRegionISO3 R))); [lia|discriminate].
  - destruct (Z.ltb_spec i (len (altRegionISO3 R))); [|discriminate].
    apply bind_not_Timeout; [apply slice_not_Timeout|].
    intros a. destruct (_ =? _); [|apply IH; lia].
    apply bind_not_Timeout; [apply index_not_Timeout|discriminate].
Qed.

Lemma getRegionISO3_not_Timeout R s : getRegionISO3 R s <> Timeout.
Proof.
  unfold getRegionISO3. destruct (FixCase _ s) as [s'|]; [|discriminate].
  repeat (apply bind_not_Timeout;
          [first [apply slice_not_Timeout | apply index_not_Timeout]
          |intros]).
  apply bind_not_Timeout.
  - apply forIndex_not_Timeout. intros i.
    repeat (apply bind_not_Timeout;
            [first [apply slice_not_Timeout | apply index_not_Timeout]
            |intros]).
    destruct (_ && _); discriminate.
  - intros [id|]; [discriminate|].
    apply bind_not_Timeout.
    + apply altRegionScan_not_Timeout; unfold len; lia.
    + intros [id|]; discriminate.
Qed.

(** C9 (as amended). The three boundary cases of region resolution fail
    with three different failures, distributed as follows: [000] is a
    value-range failure (a [ValueError] from the numeric path); a run of
    digits longer than 3, such as [1000], is a syntax failure; and a
    sequence of 3 letters, when it fails, is an invalid-subtag failure
    carrying the upper-cased input.  No two of these failures are equal. *)
Theorem getRegionID_failures (R : Registry) :
  getRegionID R (B "000") = Fail (ValueError (replicate (valueErrorLen R) 0))
  /\ getRegionID R (B "1000") = Fail errSyntax
  /\ (forall s, Forall (fun c => isDigit c = true) s -> (3 < length s)%nat ->
        getRegionID R s = Fail errSyntax)
  /\ (forall s e, length s = 3%nat -> Forall (fun c => isLetter c = true) s ->
        getRegionID R s = Fail e -> e = errInvalid (toUpper s))
  /\ (forall s, length s = 3%nat -> Forall (fun c => isLetter c = true) s ->
        (forall id, getRegionID R s <> Ret id) -> getRegionID R s <> Panic ->
        getRegionID R s = Fail (errInvalid (toUpper s)))
  /\ (forall v s, errSyntax <> ValueError v
                  /\ ValueError v <> errInvalid s
                  /\ errSyntax <> errInvalid s).
Proof.
  assert (Hlong : forall s, (3 < length s)%nat ->
                    getRegionID R s = Fail errSyntax).
  { intros s Hlen. unfold getRegionID, len.
    destruct (Z.eqb_spec (Z.of_nat (length s)) 3) as [Heq|_]; [lia|].
    apply getRegionISO2_length. lia. }
  assert (Hiso3 : forall s, length s = 3%nat ->
                    Forall (fun c => isLetter c = true) s ->
                    getRegionID R s = getRegionISO3 R s).
  { intros s Hlen Hs. unfold getRegionID, len. rewrite Hlen.
    change (Z.of_nat 3 =? 3) with true. cbn match.
    destruct s as [|c s]; [discriminate|].
    change (index (c :: s) 0) with (@Ret Z c). cbn [mbind outcome_bind].
    unfold isAlpha. now rewrite (Forall_inv Hs). }
  split; [|split; [|split; [|split; [|split]]]].
  - unfold getRegionID. change (len (B "000") =? 3) with true. cbn match.
    change (index (B "000") 0) with (@Ret Z 48). cbn [mbind outcome_bind].
    change (isAlpha 48) with false. cbn match.
    change (ParseUint10 (B "000") 10) with (Some 0). cbn match.
    unfold getRegionM49. change (0 <? 0) with false. cbn [andb].
    now rewrite m49Error_zero.
  - apply Hlong. cbn. lia.
  - intros s _ Hlen. now apply Hlong.
  - intros s e Hlen Hs. rewrite (Hiso3 s Hlen Hs).
    now apply getRegionISO3_letters.
  - intros s Hlen Hs. rewrite (Hiso3 s Hlen Hs). intros Hret Hpanic.
    pose proof (getRegionISO3_not_Timeout R s) as Htime.
    destruct (getRegionISO3 R s) as [id|e| |] eqn:E; try contradiction.
    + now destruct (Hret id).
    + f_equal. now apply (getRegionISO3_letters R s e Hlen Hs).
  - intros v s. repeat split; discriminate.
Qed.

Lemma getRegionID_failures_witness :
  getRegionID sample (B "12345") = Fail errSyntax
  /\ errInvalid (B "ABC") = errInvalid (toUpper (B "abc")).
Proof.
  destruct (getRegionID_failures sample) as (_ & _ & Hdigits & Hletters & _).
  split.
  - apply (Hdigits (B "12345")).
    + repeat constructor.
    + cbn. lia.
  - apply (Hletters (B "abc") (errInvalid (B "ABC"))).
    + reflexivity.
    + repeat constructor.
    + reflexivity.
Defined.

Example getRegionID_abc :
  getRegionID sample (B "abc") = Fail (errInvalid (B "ABC")).
Proof. reflexivity. Qed.

(** C9 fails as stated: [000] is not a syntax failure and [1000] is not
    a value-range failure. *)
Lemma getRegionID_000_1000 :
  getRegionID sample (B "000") = Fail (ValueError [0; 0; 0; 0; 0; 0; 0; 0])
  /\ getRegionID sample (B "000") <> Fail errSyntax
  /\ getRegionID sample (B "1000") = Fail errSyntax
  /\ (forall v, getRegionID sample (B "1000") <> Fail (ValueError v)).
Proof.
  repeat split; try reflexivity; try (vm_compute; discriminate).
Qed.

(** ** Canonical lookups *)

(** The canonical 3-letter match of [getLangISO3]: a slot holding the
    3-letter code followed by [0] is found by the first scan, and is
    turned into [0] when it is [nonCanonicalUnd]. *)
Lemma getLangISO3_canonical R a b c t :
  sortedOn 2 (lang R) = true ->
  distinctRecords (lang R) = true ->
  0 <= t < len (lang R) / 4 -> t < 65536 ->
  recPrefix (lang R) t 4 = [a; b; c; 0] ->
  isLower a = true -> isLower b = true -> isLower c = true ->
  getLangISO3 R [a; b; c]
  = Ret (if t =? nonCanonicalUnd R then 0 else t).
Proof.
  intros Hs Hd Ht Ht16 Hrec Ha Hb Hc. unfold getLangISO3.
  assert (Hlow : Forall (fun x => isLower x = true) [a; b; c])
    by (repeat constructor; assumption).
  rewrite (FixCase_lower (B "und") [a; b; c]);
    [|repeat constructor| |reflexivity].
  2:{ eapply Forall_impl; [exact Hlow|]. cbn. intros x Hx.
      unfold isLetter. now rewrite Hx. }
  rewrite (toLower_lower _ Hlow).
  change (slice [a; b; c] 0 2) with (@Ret (list Z) [a; b]).
  change (slice [a; b; c] 0 1) with (@Ret (list Z) [a]).
  change (index [a; b; c] 1) with (@Ret Z b).
  change (index [a; b; c] 2) with (@Ret Z c).
  cbn [mbind outcome_bind].
  match goal with
  | |- context [forIndex (lang R) [a; b] ?body] =>
      assert (Hfor : forIndex (lang R) [a; b] body
                     = Ret (Some (if t =? nonCanonicalUnd R then 0 else t)))
  end.
  { apply forIndex_reach with (t := t); auto.
    - change (len [a; b]) with 2. rewrite recPrefix_take, Hrec by lia.
      reflexivity.
    - rewrite (Elem_recPrefix _ _ Ht), Hrec. cbn [mbind outcome_bind].
      change (index [a; b; c; 0] 2) with (@Ret Z c).
      change (index [a; b; c; 0] 3) with (@Ret Z 0).
      cbn [mbind outcome_bind]. rewrite (Z.eqb_refl c).
      change ((0 =? 0) && true) with true. cbn match.
      rewrite u16_small by lia. now destruct (t =? nonCanonicalUnd R).
    - intros x Hx Hpre. change (len [a; b]) with 2 in Hpre.
      assert (Hx' : 0 <= x < len (lang R) / 4) by lia.
      rewrite (Elem_recPrefix _ _ Hx').
      destruct (record_shape _ _ Hx') as (a' & b' & c' & d' & Hx4).
      rewrite recPrefix_take, Hx4 in Hpre by lia.
      injection Hpre as -> ->.
      rewrite Hx4. cbn [mbind outcome_bind].
      change (index [a; b; c'; d'] 2) with (@Ret Z c').
      change (index [a; b; c'; d'] 3) with (@Ret Z d').
      cbn [mbind outcome_bind].
      destruct (Z.eqb_spec d' 0) as [->|]; [|reflexivity].
      destruct (Z.eqb_spec c' c) as [->|]; [|reflexivity].
      exfalso. assert (x = t); [|lia].
      apply (distinctRecords_inj (lang R)); auto. congruence. }
  rewrite Hfor. reflexivity.
Qed.

(** The 2-letter lookup of [getLangISO2]. *)
Lemma getLangISO2_first R a b c d t :
  sortedOn 2 (lang R) = true ->
  0 <= t < len (lang R) / 4 -> t < 65536 ->
  recPrefix (lang R) t 4 = [a; b; c; d] -> d <> 0 ->
  isLower a = true -> isLower b = true ->
  (t = 0 \/ recPrefix (lang R) (t - 1) 2 <> [a; b]) ->
  getLangISO2 R [a; b] = Ret t.
Proof.
  intros Hs Ht Ht16 Hrec Hd Ha Hb Hprev. unfold getLangISO2.
  assert (Hlow : Forall (fun x => isLower x = true) [a; b])
    by (repeat constructor; assumption).
  rewrite (FixCase_lower (B "zz") [a; b]);
    [|repeat constructor| |reflexivity].
  2:{ eapply Forall_impl; [exact Hlow|]. cbn. intros x Hx.
      unfold isLetter. now rewrite Hx. }
  rewrite (toLower_lower _ Hlow).
  assert (Hidx : Index_Index (lang R) [a; b] = t).
  { apply Index_Index_first; auto.
    change (len [a; b]) with 2. rewrite recPrefix_take, Hrec by lia.
    reflexivity. }
  rewrite Hidx. destruct (Z.eqb_spec t (-1)); [lia|].
  rewrite (Elem_recPrefix _ _ Ht), Hrec. cbn [mbind outcome_bind].
  change (index [a; b; c; d] 3) with (@Ret Z d).
  cbn [mbind outcome_bind].
  destruct (Z.eqb_spec d 0); [contradiction|].
  now rewrite u16_small by lia.
Qed.

(** The 2-letter lookup of [getRegionISO2]. *)
Lemma getRegionISO2_first R a b c d t :
  sortedOn 2 (regionISO R) = true ->
  0 <= t < len (regionISO R) / 4 ->
  recPrefix (regionISO R) t 4 = [a; b; c; d] ->
  isUpper a = true -> isUpper b = true ->
  (t = 0 \/ recPrefix (regionISO R) (t - 1) 2 <> [a; b]) ->
  getRegionISO2 R [a; b] = Ret (u16 (u16 t + isoRegionOffset R)).
Proof.
  intros Hs Ht Hrec Ha Hb Hprev. unfold getRegionISO2, findIndex.
  assert (Hup : Forall (fun x => isUpper x = true) [a; b])
    by (repeat constructor; assumption).
  rewrite (FixCase_upper (B "ZZ") [a; b]);
    [|repeat constructor| |reflexivity].
  2:{ eapply Forall_impl; [exact Hup|]. cbn. intros x Hx.
      unfold isLetter. rewrite Hx. apply orb_true_r. }
  rewrite (toUpper_upper _ Hup).
  assert (Hidx : Index_Index (regionISO R) [a; b] = t).
  { apply Index_Index_first; auto.
    change (len [a; b]) with 2. rewrite recPrefix_take, Hrec by lia.
    reflexivity. }
  rewrite Hidx. destruct (Z.eqb_spec t (-1)); [lia|]. reflexivity.
Qed.

Lemma langSlot_spec R id :
  langSlot R id = true ->
  0 < id < len (lang R) / 4 /\ id < langNoIndexOffset R /\ id < 65536
  /\ id <> nonCanonicalUnd R
  /\ exists a b c d,
       recPrefix (lang R) id 4 = [a; b; c; d]
       /\ isLower a = true /\ isLower b = true
       /\ (d = 0 -> isLower c = true)
       /\ (d <> 0 -> recPrefix (lang R) (id - 1) 2 <> [a; b]).
Proof.
  unfold langSlot. rewrite !andb_true_iff, !Z.ltb_lt, negb_true_iff, Z.eqb_neq.
  intros (((((H0 & Hn) & Hoff) & H16) & Hncu) & Hrec).
  do 3 (split; [lia|]). split; [assumption|].
  destruct (recPrefix (lang R) id 4) as [|a [|b [|c [|d [|? ?]]]]];
    try discriminate.
  apply andb_true_iff in Hrec as [Hab Hcd].
  apply andb_true_iff in Hab as [Ha Hb].
  exists a, b, c, d. repeat split; auto.
  - intros ->. exact Hcd.
  - intros Hd Heq. destruct (Z.eqb_spec d 0); [contradiction|].
    rewrite Heq, cmp_refl in Hcd. discriminate.
Qed.

Lemma regionSlot_spec R r :
  regionSlot R r = true ->
  0 <= isoRegionOffset R /\ 0 <= r - isoRegionOffset R < len (regionISO R) / 4
  /\ r < 65536
  /\ exists a b c d,
       recPrefix (regionISO R) (r - isoRegionOffset R) 4 = [a; b; c; d]
       /\ isUpper a = true /\ isUpper b = true
       /\ (r - isoRegionOffset R = 0
           \/ recPrefix (regionISO R) (r - isoRegionOffset R - 1) 2 <> [a; b]).
Proof.
  unfold regionSlot. cbn zeta.
  rewrite !andb_true_iff, !Z.ltb_lt, !Z.leb_le.
  intros ((((Hoff & H0) & Hn) & H16) & Hrec).
  do 3 (split; [lia|]).
  destruct (recPrefix (regionISO R) (r - isoRegionOffset R) 4)
    as [|a [|b [|c [|d [|? ?]]]]]; try discriminate.
  apply andb_true_iff in Hrec as [Hab Hprev].
  apply andb_true_iff in Hab as [Ha Hb].
  exists a, b, c, d. repeat split; auto.
  apply orb_true_iff in Hprev as [Hz|Hne]; [left; now apply Z.eqb_eq|].
  right. intros Heq. rewrite Heq, cmp_refl in Hne. discriminate.
Qed.

(** Rendering a language slot and resolving the result. *)
Lemma langID_roundtrip R id :
  sortedOn 2 (lang R) = true ->
  distinctRecords (lang R) = true ->
  langSlot R id = true ->
  langID_String R id ≫= getLangID R = Ret id.
Proof.
  intros Hs Hd Hslot.
  destruct (langSlot_spec R id Hslot)
    as (Hid & Hoff & H16 & Hncu & a & b & c & d & Hrec & Ha & Hb & Hc & Hprev).
  assert (Hid' : 0 <= id < len (lang R) / 4) by lia.
  unfold langID_String.
  destruct (Z.eqb_spec id 0); [lia|].
  destruct (Z.leb_spec (langNoIndexOffset R) id); [lia|].
  rewrite (Elem_recPrefix _ _ Hid'), Hrec. cbn [mbind outcome_bind].
  change (index [a; b; c; d] 3) with (@Ret Z d). cbn [mbind outcome_bind].
  destruct (Z.eqb_spec d 0) as [->|Hd0].
  - change (slice [a; b; c; 0] 0 3) with (@Ret (list Z) [a; b; c]).
    cbn [mbind outcome_bind]. unfold getLangID.
    change (len [a; b; c] =? 2) with false. cbn match.
    rewrite (getLangISO3_canonical R a b c id); auto.
    destruct (Z.eqb_spec id (nonCanonicalUnd R)); [contradiction|reflexivity].
  - change (slice [a; b; c; d] 0 2) with (@Ret (list Z) [a; b]).
    cbn [mbind outcome_bind]. unfold getLangID.
    change (len [a; b] =? 2) with true. cbn match.
    apply (getLangISO2_first R a b c d id); auto.
Qed.

(** Rendering a region slot and resolving the result. *)
Lemma regionID_roundtrip R r :
  sortedOn 2 (regionISO R) = true ->
  regionSlot R r = true ->
  regionID_String R r ≫= getRegionID R = Ret r.
Proof.
  intros Hs Hslot.
  destruct (regionSlot_spec R r Hslot)
    as (Hoff & Hx & H16 & a & b & c & d & Hrec & Ha & Hb & Hprev).
  unfold regionID_String.
  destruct (Z.ltb_spec r (isoRegionOffset R)); [lia|].
  rewrite (u16_small (r - isoRegionOffset R)) by lia.
  rewrite (Elem_recPrefix _ _ Hx), Hrec. cbn [mbind outcome_bind].
  change (slice [a; b; c; d] 0 2) with (@Ret (list Z) [a; b]).
  cbn [mbind outcome_bind]. unfold getRegionID.
  change (len [a; b] =? 3) with false. cbn match.
  rewrite (getRegionISO2_first R a b c d (r - isoRegionOffset R)); auto.
  rewrite (u16_small (r - isoRegionOffset R)) by lia.
  rewrite u16_small by lia. f_equal. lia.
Qed.

(** Rendering the slot [nonCanonicalUnd] and resolving the result gives
    [0], not the slot. *)
Lemma nonCanonicalUnd_roundtrip R :
  sortedOn 2 (lang R) = true ->
  distinctRecords (lang R) = true ->
  Elem (lang R) (nonCanonicalUnd R) = Ret (B "und" ++ [0]) ->
  0 < nonCanonicalUnd R < langNoIndexOffset R ->
  nonCanonicalUnd R < 65536 ->
  langID_String R (nonCanonicalUnd R) ≫= getLangID R = Ret 0.
Proof.
  intros Hs Hd Hund Hncu H16.
  destruct (Elem_Ret _ _ _ Hund) as [Hin Hrec].
  unfold langID_String.
  destruct (Z.eqb_spec (nonCanonicalUnd R) 0); [lia|].
  destruct (Z.leb_spec (langNoIndexOffset R) (nonCanonicalUnd R)); [lia|].
  rewrite Hund. cbn [mbind outcome_bind].
  change (index (B "und" ++ [0]) 3) with (@Ret Z 0).
  cbn [mbind outcome_bind]. change (0 =? 0) with true. cbn match.
  change (slice (B "und" ++ [0]) 0 3) with (@Ret (list Z) (B "und")).
  cbn [mbind outcome_bind]. unfold getLangID.
  change (len (B "und") =? 2) with false. cbn match.
  change (B "und") with [117; 110; 100].
  rewrite (getLangISO3_canonical R 117 110 100 (nonCanonicalUnd R)); auto.
  now rewrite Z.eqb_refl.
Qed.

(** C4 (as amended). [resolve(render(id)) = id] holds for every language
    identifier that designates a slot of the language table other than
    the slot [nonCanonicalUnd], and for every region identifier that
    designates a slot of the region table, when the tables are sorted on
    their first two bytes, records are distinct and the slot holds a
    code ([langSlot], [regionSlot]).  The slot [nonCanonicalUnd] renders
    as [und], which resolves to [0]. *)
Theorem resolve_render_roundtrip (R : Registry) :
  (forall id,
     sortedOn 2 (lang R) = true -> distinctRecords (lang R) = true ->
     langSlot R id = true ->
     langID_String R id ≫= getLangID R = Ret id)
  /\ (forall r,
        sortedOn 2 (regionISO R) = true -> regionSlot R r = true ->
        regionID_String R r ≫= getRegionID R = Ret r)
  /\ (sortedOn 2 (lang R) = true -> distinctRecords (lang R) = true ->
      Elem (lang R) (nonCanonicalUnd R) = Ret (B "und" ++ [0]) ->
      0 < nonCanonicalUnd R < langNoIndexOffset R ->
      nonCanonicalUnd R < 65536 ->
      langID_String R (nonCanonicalUnd R) = Ret (B "und")
      /\ langID_String R (nonCanonicalUnd R) ≫= getLangID R = Ret 0).
Proof.
  split; [|split].
  - intros id. apply langID_roundtrip.
  - intros r. apply regionID_roundtrip.
  - intros Hs Hd Hund Hncu H16. split.
    + unfold langID_String.
      destruct (Z.eqb_spec (nonCanonicalUnd R) 0); [lia|].
      destruct (Z.leb_spec (langNoIndexOffset R) (nonCanonicalUnd R)); [lia|].
      now rewrite Hund.
    + now apply nonCanonicalUnd_roundtrip.
Qed.

Lemma resolve_render_roundtrip_witness :
  (langID_String sample 4 ≫= getLangID sample = Ret 4)
  /\ (langID_String sample 7 ≫= getLangID sample = Ret 7)
  /\ (regionID_String sample 9 ≫= getRegionID sample = Ret 9)
  /\ (langID_String sample 8 ≫= getLangID sample = Ret 0).
Proof.
  destruct (resolve_render_roundtrip sample) as (Hlang & Hregion & Hund).
  split; [|split; [|split]].
  - apply (Hlang 4); reflexivity.
  - apply (Hlang 7); reflexivity.
  - apply (Hregion 9); reflexivity.
  - apply Hund; try reflexivity. cbn. lia.
Defined.

(** C4 fails as stated: slot [8] of the sample language table (its
    [nonCanonicalUnd]) holds the record [und]; it renders as [und], and
    [und] resolves to [0]. *)
Lemma nonCanonicalUnd_not_roundtrip :
  Elem (lang sample) 8 = Ret (B "und" ++ [0])
  /\ nonCanonicalUnd sample = 8
  /\ langID_String sample 8 = Ret (B "und")
  /\ getLangID sample (B "und") = Ret 0
  /\ langID_String sample 8 ≫= getLangID sample <> Ret 8.
Proof. repeat split; try reflexivity. vm_compute. discriminate. Qed.

(** ** The sentinels *)

Lemma getLangID_und R :
  sortedOn 2 (lang R) = true ->
  distinctRecords (lang R) = true ->
  Elem (lang R) (nonCanonicalUnd R) = Ret (B "und" ++ [0]) ->
  nonCanonicalUnd R < 65536 ->
  getLangID R (B "und") = Ret 0.
Proof.
  intros Hs Hd Hund H16.
  destruct (Elem_Ret _ _ _ Hund) as [Hin Hrec].
  unfold getLangID. change (len (B "und") =? 2) with false. cbn match.
  change (B "und") with [117; 110; 100].
  rewrite (getLangISO3_canonical R 117 110 100 (nonCanonicalUnd R)); auto.
  now rewrite Z.eqb_refl.
Qed.

(** A code that [findIndex] resolves sits in the slot it returns. *)
Lemma findIndex_Ret idx key form i :
  findIndex idx key form = Ret i ->
  exists key', FixCase form key = Some key'
    /\ 0 <= i < len idx / 4 /\ recPrefix idx i (len key') = key'.
Proof.
  unfold findIndex. destruct (FixCase form key) as [key'|]; [|discriminate].
  destruct (Z.eqb_spec (Index_Index idx key') (-1)) as [|Hne]; [discriminate|].
  intros [= <-]. exists key'. split; [reflexivity|].
  now apply Index_Index_hit.
Qed.

Lemma getRegionID_ZZ R id :
  0 < isoRegionOffset R ->
  isoRegionOffset R + len (regionISO R) / 4 <= 65536 ->
  getRegionID R (B "ZZ") = Ret id ->
  isoRegionOffset R <= id /\ id <> 0 /\ regionID_String R id = Ret (B "ZZ").
Proof.
  intros Hoff Hsize. unfold getRegionID.
  change (len (B "ZZ") =? 3) with false. cbn match. unfold getRegionISO2.
  destruct (findIndex (regionISO R) (B "ZZ") (B "ZZ")) as [i| | |] eqn:Hi;
    try discriminate.
  cbn [mbind outcome_bind]. intros [= <-].
  apply findIndex_Ret in Hi as (key' & Hfix & Hin & Hrec).
  change (FixCase (B "ZZ") (B "ZZ")) with (Some (B "ZZ")) in Hfix.
  injection Hfix as <-. change (len (B "ZZ")) with 2 in Hrec.
  rewrite (u16_small i), (u16_small (i + isoRegionOffset R)) by lia.
  split; [lia|]. split; [lia|].
  unfold regionID_String.
  destruct (Z.ltb_spec (i + isoRegionOffset R) (isoRegionOffset R)); [lia|].
  replace (i + isoRegionOffset R - isoRegionOffset R) with i by lia.
  rewrite (u16_small i) by lia.
  rewrite (Elem_recPrefix _ _ Hin). cbn [mbind outcome_bind].
  destruct (record_shape _ _ Hin) as (a & b & c & d & Hshape).
  rewrite recPrefix_take, Hshape in Hrec by lia. rewrite Hshape.
  change (slice [a; b; c; d] 0 2) with (@Ret (list Z) [a; b]).
  now f_equal.
Qed.

(** C3 (as amended). Identifier [0] renders as [und], [ZZ], [Zzzz] and
    [XXX], and [und] resolves to language identifier [0] (in a sorted
    language table with distinct records that holds [und] in the slot
    [nonCanonicalUnd]).  The other three sentinels are not resolved to
    [0]: [ZZ] resolves to the identifier of its own slot in the region
    table, which is at least [isoRegionOffset], hence not [0], and
    renders as [ZZ] too; [Zzzz] and [XXX] resolve to the slot of the
    index that holds them. *)
Theorem sentinel_identity (R : Registry) :
  langID_String R 0 = Ret (B "und")
  /\ scriptID_String R 0 = Ret (B "Zzzz")
  /\ currencyID_String R 0 = Ret (B "XXX")
  /\ (0 < isoRegionOffset R -> regionID_String R 0 = Ret (B "ZZ"))
  /\ (sortedOn 2 (lang R) = true -> distinctRecords (lang R) = true ->
      Elem (lang R) (nonCanonicalUnd R) = Ret (B "und" ++ [0]) ->
      nonCanonicalUnd R < 65536 ->
      getLangID R (B "und") = Ret 0)
  /\ (forall id,
        0 < isoRegionOffset R ->
        isoRegionOffset R + len (regionISO R) / 4 <= 65536 ->
        getRegionID R (B "ZZ") = Ret id ->
        isoRegionOffset R <= id /\ id <> 0
        /\ regionID_String R id = Ret (B "ZZ"))
  /\ (forall idx id,
        len idx / 4 <= 256 ->
        getScriptID idx (B "Zzzz") = Ret id ->
        Elem idx id = Ret (B "Zzzz"))
  /\ (forall idx id,
        len idx / 4 <= 65536 ->
        getCurrencyID idx (B "XXX") = Ret id ->
        exists e, Elem idx id = Ret e /\ take 3 e = B "XXX").
Proof.
  split; [reflexivity|]. split; [reflexivity|]. split; [reflexivity|].
  split.
  { intros Hoff. unfold regionID_String.
    destruct (Z.ltb_spec 0 (isoRegionOffset R)); [reflexivity|lia]. }
  split; [apply getLangID_und|].
  split; [intros id; apply getRegionID_ZZ|].
  split.
  - intros idx id Hsize. unfold getScriptID.
    destruct (findIndex idx (B "Zzzz") (B "Zzzz")) as [i| | |] eqn:Hi;
      try discriminate.
    cbn [mbind outcome_bind]. intros [= <-].
    apply findIndex_Ret in Hi as (key' & Hfix & Hin & Hrec).
    change (FixCase (B "Zzzz") (B "Zzzz")) with (Some (B "Zzzz")) in Hfix.
    injection Hfix as <-. change (len (B "Zzzz")) with 4 in Hrec.
    rewrite u8_small by lia. now rewrite (Elem_recPrefix _ _ Hin), Hrec.
  - intros idx id Hsize. unfold getCurrencyID.
    destruct (findIndex idx (B "XXX") (B "XXX")) as [i| | |] eqn:Hi;
      try discriminate.
    cbn [mbind outcome_bind]. intros [= <-].
    apply findIndex_Ret in Hi as (key' & Hfix & Hin & Hrec).
    change (FixCase (B "XXX") (B "XXX")) with (Some (B "XXX")) in Hfix.
    injection Hfix as <-. change (len (B "XXX")) with 3 in Hrec.
    rewrite u16_small by lia. rewrite (Elem_recPrefix _ _ Hin).
    eexists; split; [reflexivity|].
    now rewrite recPrefix_take in Hrec by lia.
Qed.

Lemma sentinel_identity_witness :
  getLangID sample (B "und") = Ret 0
  /\ regionID_String sample 0 = Ret (B "ZZ")
  /\ (isoRegionOffset sample <= 10 /\ 10 <> 0
      /\ regionID_String sample 10 = Ret (B "ZZ"))
  /\ Elem (script sample) 2 = Ret (B "Zzzz")
  /\ (exists e, Elem (currency sample) 3 = Ret e /\ take 3 e = B "XXX").
Proof.
  destruct (sentinel_identity sample)
    as (_ & _ & _ & Hzz & Hund & Hregion & Hscript & Hcurrency).
  split; [|split; [|split; [|split]]].
  - apply Hund; reflexivity.
  - apply Hzz. reflexivity.
  - apply (Hregion 10); try reflexivity. vm_compute. discriminate.
  - apply (Hscript (script sample) 2); [vm_compute; discriminate|reflexivity].
  - apply (Hcurrency (currency sample) 3);
      [vm_compute; discriminate|reflexivity].
Defined.

(** C3 fails as stated: [ZZ], [Zzzz] and [XXX] resolve to the
    identifiers of their table slots, not to [0]. *)
Lemma sentinels_not_zero :
  getRegionID sample (B "ZZ") = Ret 10
  /\ getRegionID sample (B "ZZ") <> Ret 0
  /\ getScriptID (script sample) (B "Zzzz") = Ret 2
  /\ getScriptID (script sample) (B "Zzzz") <> Ret 0
  /\ getCurrencyID (currency sample) (B "XXX") = Ret 3
  /\ getCurrencyID (currency sample) (B "XXX") <> Ret 0.
Proof. repeat split; try reflexivity; vm_compute; discriminate. Qed.

(** * Further properties of lookup.go *)

(** ** searchUint *)

Lemma ascendingZ_tail x l : ascendingZ (x :: l) = true -> ascendingZ l = true.
Proof.
  destruct l; [reflexivity|]. cbn. intros H.
  now apply andb_true_iff in H as [_ ?].
Qed.

Lemma ascendingZ_head l : forall x j y,
  ascendingZ (x :: l) = true -> l !! j = Some y -> x <= y.
Proof.
  induction l as [|z l IH]; intros x j y Hasc Hy; [discriminate|].
  pose proof (ascendingZ_tail _ _ Hasc) as Htl.
  cbn in Hasc. apply andb_true_iff in Hasc as [Hx _].
  apply Z.leb_le in Hx. destruct j as [|j]; cbn in Hy.
  - injection Hy as ->. lia.
  - pose proof (IH z j y Htl Hy). lia.
Qed.

Lemma ascendingZ_lookup l : forall i j x y,
  ascendingZ l = true -> (i <= j)%nat ->
  l !! i = Some x -> l !! j = Some y -> x <= y.
Proof.
  induction l as [|z l IH]; intros i j x y Hasc Hij Hx Hy; [discriminate|].
  destruct i as [|i], j as [|j]; cbn in Hx, Hy; try lia.
  - injection Hx as ->. injection Hy as ->. lia.
  - injection Hx as ->. eapply ascendingZ_head; eauto.
  - eapply (IH i j); eauto using ascendingZ_tail. lia.
Qed.

Lemma at_lookup l i x :
  l !! Z.to_nat i = Some x -> 0 <= i -> at_ l i = x.
Proof.
  intros Hx Hi. unfold at_. destruct (Z.ltb_spec i 0); [lia|].
  now apply nth_lookup_Some.
Qed.

Lemma at_in_range l i :
  0 <= i < len l -> l !! Z.to_nat i = Some (at_ l i).
Proof.
  intros Hi. unfold len in Hi.
  destruct (lookup_lt_is_Some_2 l (Z.to_nat i)) as [x Hx]; [lia|].
  now rewrite (at_lookup l i x Hx) by lia.
Qed.

(** The least index whose entry is at least [key], in an ascending
    table: what [sort.Search] finds for the closure [imap[i] >= key]. *)
Lemma search_ge_spec (l : list Z) (key : Z) :
  ascendingZ l = true ->
  let k := sort_Search (len l) (fun i => key <=? at_ l i) in
  0 <= k <= len l
  /\ (forall i, 0 <= i < k -> at_ l i < key)
  /\ (forall i, k <= i < len l -> key <= at_ l i).
Proof.
  intros Hasc.
  set (f := fun i : Z => key <=? at_ l i).
  assert (Hn : 0 <= len l) by (unfold len; lia).
  assert (Hmono : forall x y, 0 <= x -> x <= y -> y < len l ->
                    f x = true -> f y = true).
  { intros x y Hx Hxy Hy. unfold f. rewrite !Z.leb_le. intros Hfx.
    assert (at_ l x <= at_ l y); [|lia].
    apply (ascendingZ_lookup l (Z.to_nat x) (Z.to_nat y)); auto;
      [lia|apply at_in_range; lia|apply at_in_range; lia]. }
  pose proof (sort_Search_least _ f Hn Hmono) as Hleast.
  destruct (sort_Search_spec _ f Hn) as (Hk & _ & Hhi).
  cbn zeta. split; [exact Hk|]. split.
  - intros i Hi. specialize (Hleast i Hi). unfold f in Hleast.
    now apply Z.leb_gt in Hleast.
  - intros i Hi. destruct Hhi as [Hhi|Hhi]; [lia|].
    apply Z.leb_le. apply (Hmono _ i) in Hhi; auto; lia.
Qed.

(** X1. [searchUint] on an ascending table returns the number of entries
    that are smaller than the key: every entry before the returned index
    is smaller, every entry from it on is at least the key, and the
    result is [len(imap)] when all entries are smaller. *)
Theorem searchUint_spec (imap : list Z) (key : Z) :
  ascendingZ imap = true ->
  0 <= searchUint imap key <= len imap
  /\ (forall i, 0 <= i < searchUint imap key -> at_ imap i < key)
  /\ (forall i, searchUint imap key <= i < len imap -> key <= at_ imap i).
Proof. intros Hasc. apply (search_ge_spec imap key Hasc). Qed.

Lemma searchUint_spec_witness :
  0 <= searchUint [2; 3; 5; 5; 8] 5 <= len [2; 3; 5; 5; 8]
  /\ (forall i, 0 <= i < searchUint [2; 3; 5; 5; 8] 5 ->
                at_ [2; 3; 5; 5; 8] i < 5)
  /\ (forall i, searchUint [2; 3; 5; 5; 8] 5 <= i < len [2; 3; 5; 5; 8] ->
                5 <= at_ [2; 3; 5; 5; 8] i).
Proof. apply (searchUint_spec [2; 3; 5; 5; 8] 5). reflexivity. Defined.

(** ** The packer, in both directions and for every length *)

(** X2. For a lowercase string of any length whose base-26 value fits
    the [uint] width ([26 ^ len(s) <= 2 ^ w]), [intToStr] on a buffer of
    the same length restores the string packed by [strToInt]; hence
    [strToInt] maps different lowercase strings of one such length to
    different integers. *)
Theorem strToInt_injective (w : Z) (s t b : list Z) :
  Forall (fun c => isLower c = true) s ->
  Forall (fun c => isLower c = true) t ->
  26 ^ Z.of_nat (length s) <= 2 ^ w ->
  length t = length s -> length b = length s ->
  intToStr (strToInt w s) b = s
  /\ (strToInt w s = strToInt w t -> s = t).
Proof.
  intros Hs Ht Hw Hlen Hb.
  assert (Hrt : forall u, Forall (fun c => isLower c = true) u ->
                  length u = length s -> intToStr (strToInt w u) b = u).
  { intros u Hu Hlu. rewrite strToInt_digitsVal by (auto; now rewrite Hlu).
    unfold intToStr. rewrite Hb, <- Hlu.
    rewrite intToStr_loop_digitsVal by (auto; lia).
    rewrite drop_ge by lia. apply app_nil_r. }
  split; [now apply Hrt|].
  intros Heq. rewrite <- (Hrt s Hs eq_refl), <- (Hrt t Ht Hlen). now rewrite Heq.
Qed.

Lemma strToInt_injective_witness :
  intToStr (strToInt 32 (B "abcdef")) [0; 0; 0; 0; 0; 0] = B "abcdef"
  /\ (strToInt 32 (B "abcdef") = strToInt 32 (B "abcdeg") ->
      B "abcdef" = B "abcdeg").
Proof.
  apply (strToInt_injective 32 (B "abcdef") (B "abcdeg") [0; 0; 0; 0; 0; 0]).
  - repeat constructor.
  - repeat constructor.
  - vm_compute. discriminate.
  - reflexivity.
  - reflexivity.
Defined.

Lemma intToStr_loop_props : forall n v b,
  0 <= v -> (n <= length b)%nat ->
  let r := intToStr_loop n v b in
  length r = length b
  /\ drop n r = drop n b
  /\ Forall (fun c => isLower c = true) (take n r)
  /\ digitsVal (take n r) = v mod 26 ^ Z.of_nat n.
Proof.
  induction n as [|i IH]; intros v b Hv Hn; cbn [intToStr_loop].
  - cbn zeta. rewrite take_0. repeat split; auto.
    change (26 ^ Z.of_nat 0) with 1. now rewrite Z.mod_1_r.
  - set (c := u8 (u8 (v mod base) + 97)).
    assert (Hc : c = v mod 26 + 97).
    { unfold c, base. change (122 - 97 + 1) with 26.
      pose proof (Z.mod_pos_bound v 26 ltac:(lia)).
      rewrite (u8_small (v mod 26)) by lia. apply u8_small. lia. }
    assert (Hv' : 0 <= v / base)
      by (unfold base; apply Z.div_pos; lia).
    destruct (IH (v / base) (<[i := c]> b) Hv'
                ltac:(rewrite length_insert; lia))
      as (Hlen & Hdrop & Hlow & Hval).
    cbn zeta. set (r := intToStr_loop i (v / base) (<[i := c]> b)) in *.
    rewrite length_insert in Hlen.
    assert (Hri : r !! i = Some c).
    { replace i with (i + 0)%nat at 1 by lia. rewrite <- lookup_drop, Hdrop.
      rewrite lookup_drop, Nat.add_0_r. apply list_lookup_insert_eq. lia. }
    split; [exact Hlen|]. split; [|split].
    + replace (S i) with (i + 1)%nat by lia.
      rewrite <- !drop_drop, Hdrop.
      rewrite !drop_drop. now rewrite drop_insert_lt by lia.
    + rewrite (take_S_r _ _ _ Hri). apply Forall_app. split; [exact Hlow|].
      repeat constructor. apply isLower_range.
      pose proof (Z.mod_pos_bound v 26 ltac:(lia)). lia.
    + rewrite (take_S_r _ _ _ Hri), digitsVal_snoc, Hval, Hc.
      unfold base. change (122 - 97 + 1) with 26.
      rewrite Nat2Z.inj_succ, Z.pow_succ_r by lia.
      rewrite (Z.rem_mul_r v 26 (26 ^ Z.of_nat i)) by lia. lia.
Qed.

Lemma intToStr_lower_pack (w v : Z) (b : list Z) :
  0 <= v < 26 ^ Z.of_nat (length b) ->
  26 ^ Z.of_nat (length b) <= 2 ^ w ->
  length (intToStr v b) = length b
  /\ Forall (fun c => isLower c = true) (intToStr v b)
  /\ strToInt w (intToStr v b) = v.
Proof.
  intros Hv Hw. unfold intToStr.
  destruct (intToStr_loop_props (length b) v b (proj1 Hv) (Nat.le_refl _))
    as (Hlen & _ & Hlow & Hval).
  cbn zeta in *. set (r := intToStr_loop (length b) v b) in *.
  rewrite <- Hlen, firstn_all in Hlow, Hval.
  split; [exact Hlen|]. split; [exact Hlow|].
  rewrite strToInt_digitsVal by (auto; now rewrite Hlen).
  rewrite Hval, Hlen. apply Z.mod_small. lia.
Qed.

(** X3. [intToStr] fills the buffer with lowercase letters, and
    [strToInt] packs them back: for [0 <= v < 26 ^ len(b)] (a value that
    fits the [uint] width), [strToInt(intToStr(v, b)) = v]. *)
Theorem strToInt_intToStr (w v : Z) (b : list Z) :
  0 <= v < 26 ^ Z.of_nat (length b) ->
  26 ^ Z.of_nat (length b) <= 2 ^ w ->
  length (intToStr v b) = length b
  /\ Forall (fun c => isLower c = true) (intToStr v b)
  /\ strToInt w (intToStr v b) = v.
Proof. apply intToStr_lower_pack. Qed.

Lemma strToInt_intToStr_witness :
  length (intToStr 13137 [0; 0; 0]) = length [0; 0; 0]
  /\ Forall (fun c => isLower c = true) (intToStr 13137 [0; 0; 0])
  /\ strToInt 64 (intToStr 13137 [0; 0; 0]) = 13137.
Proof.
  apply (strToInt_intToStr 64 13137 [0; 0; 0]).
  - vm_compute. split; discriminate || reflexivity.
  - vm_compute. discriminate.
Defined.

(** ** findIndex *)

(** X4. [findIndex] is sound and, on a sorted index, complete: a slot it
    returns holds the case-fixed key; when some slot of an index sorted
    on the key length holds the case-fixed key, it returns the first
    such slot; and when no slot holds it, the result is the
    invalid-subtag failure carrying the case-fixed key. *)
Theorem findIndex_spec (idx key form : list Z) :
  (forall i, findIndex idx key form = Ret i ->
     exists key', FixCase form key = Some key'
       /\ 0 <= i < len idx / 4 /\ recPrefix idx i (len key') = key')
  /\ (forall key' t,
        FixCase form key = Some key' ->
        sortedOn (len key') idx = true ->
        0 <= t < len idx / 4 -> recPrefix idx t (len key') = key' ->
        exists i, findIndex idx key form = Ret i /\ 0 <= i <= t
          /\ recPrefix idx i (len key') = key'
          /\ forall x, 0 <= x < i -> recPrefix idx x (len key') <> key')
  /\ (forall key',
        FixCase form key = Some key' ->
        (forall x, 0 <= x < len idx / 4 -> recPrefix idx x (len key') <> key') ->
        findIndex idx key form = Fail (errInvalid key')).
Proof.
  split; [|split].
  - intros i. apply findIndex_Ret.
  - intros key' t Hfix Hs Ht Hrec. unfold findIndex. rewrite Hfix.
    destruct (Index_Index_spec idx key' t Hs Ht Hrec) as (Hj & Hrun & Hfirst).
    exists (Index_Index idx key'). 
    destruct (Z.eqb_spec (Index_Index idx key') (-1)); [lia|].
    repeat split; auto; try lia. apply Hrun. lia.
  - intros key' Hfix Hnone. unfold findIndex. rewrite Hfix.
    destruct (Z.eqb_spec (Index_Index idx key') (-1)) as [|Hne]; [reflexivity|].
    destruct (Index_Index_hit idx key' Hne) as [Hin Hrec].
    now destruct (Hnone _ Hin).
Qed.

Lemma findIndex_spec_witness :
  exists i, findIndex (script sample) (B "latn") (B "Zzzz") = Ret i
    /\ 0 <= i <= 1
    /\ recPrefix (script sample) i (len (B "Latn")) = B "Latn"
    /\ forall x, 0 <= x < i ->
         recPrefix (script sample) x (len (B "Latn")) <> B "Latn".
Proof.
  apply (proj1 (proj2 (findIndex_spec (script sample) (B "latn") (B "Zzzz")))
           (B "Latn") 1).
  - reflexivity.
  - reflexivity.
  - vm_compute. split; discriminate || reflexivity.
  - reflexivity.
Defined.

(** ** Inputs of the wrong length *)

Lemma FixCase_wrong_length form s :
  length s <> length form -> FixCase form s = None.
Proof.
  intros Hlen. destruct (FixCase form s) as [r|] eqn:Hr; [|reflexivity].
  apply FixCase_length in Hr as [Hr _]. congruence.
Qed.

(** X5. An input of the wrong length, the empty input included, is a
    syntax failure: for languages and regions every length other than 2
    and 3, for scripts every length other than 4, for currencies every
    length other than 3. *)
Theorem wrong_length_errSyntax (R : Registry) (idx s : list Z) :
  (length s <> 2%nat -> length s <> 3%nat ->
     getLangID R s = Fail errSyntax /\ getRegionID R s = Fail errSyntax)
  /\ (length s <> 4%nat -> getScriptID idx s = Fail errSyntax)
  /\ (length s <> 3%nat -> getCurrencyID idx s = Fail errSyntax).
Proof.
  split; [|split].
  - intros H2 H3. split.
    + unfold getLangID, getLangISO3, len.
      destruct (Z.eqb_spec (Z.of_nat (length s)) 2); [lia|].
      now rewrite FixCase_wrong_length.
    + unfold getRegionID, len.
      destruct (Z.eqb_spec (Z.of_nat (length s)) 3); [lia|].
      now apply getRegionISO2_length.
  - intros H4. unfold getScriptID, findIndex.
    now rewrite FixCase_wrong_length.
  - intros H3. unfold getCurrencyID, findIndex.
    now rewrite FixCase_wrong_length.
Qed.

Lemma wrong_length_errSyntax_witness :
  (getLangID sample [] = Fail errSyntax /\ getRegionID sample [] = Fail errSyntax)
  /\ getScriptID (script sample) (B "Latin") = Fail errSyntax
  /\ getCurrencyID (currency sample) (B "EU") = Fail errSyntax.
Proof.
  split; [|split].
  - apply (wrong_length_errSyntax sample [] []); discriminate.
  - apply (wrong_length_errSyntax sample (script sample) (B "Latin")).
    discriminate.
  - apply (wrong_length_errSyntax sample (currency sample) (B "EU")).
    discriminate.
Defined.

(** ** Which failures the resolvers report *)

Lemma FixCase_lower_Some form : forall s r,
  Forall (fun f => isLower f = true) form ->
  FixCase form s = Some r ->
  r = toLower s /\ Forall (fun c => isLetter c = true) s.
Proof.
  induction form as [|f form IH]; intros [|c s] r Hform H; cbn in H;
    try discriminate.
  - injection H as <-. split; [reflexivity|constructor].
  - inversion Hform as [|? ? Hf Hform']; subst.
    unfold fixByte in H.
    assert (isUpper f = false) as Hu by (clear - Hf; byte_cases).
    rewrite Hu, Hf in H.
    destruct (isLetter c) eqn:Hc; [|discriminate].
    destruct (FixCase form s) as [r'|] eqn:Hr; [|discriminate].
    injection H as <-. destruct (IH s r' Hform' Hr) as [-> Hs].
    split; [reflexivity|now constructor].
Qed.

Lemma FixCase_upper_Some form : forall s r,
  Forall (fun f => isUpper f = true) form ->
  FixCase form s = Some r ->
  r = toUpper s /\ Forall (fun c => isLetter c = true) s.
Proof.
  induction form as [|f form IH]; intros [|c s] r Hform H; cbn in H;
    try discriminate.
  - injection H as <-. split; [reflexivity|constructor].
  - inversion Hform as [|? ? Hf Hform']; subst.
    unfold fixByte in H. rewrite Hf in H.
    destruct (isLetter c) eqn:Hc; [|discriminate].
    destruct (FixCase form s) as [r'|] eqn:Hr; [|discriminate].
    injection H as <-. destruct (IH s r' Hform' Hr) as [-> Hs].
    split; [reflexivity|now constructor].
Qed.

Lemma Elem_not_Fail s x e : Elem s x <> Fail e.
Proof. apply slice_not_Fail. Qed.

Lemma Elem_not_Timeout s x : Elem s x <> Timeout.
Proof. apply slice_not_Timeout. Qed.

(** Proves that a computation built from slices, indexings and scans
    reports no error of its own. *)
Ltac no_fail :=
  repeat first
    [ apply slice_not_Fail | apply index_not_Fail | apply Elem_not_Fail
    | apply altRegionScan_not_Fail
    | (unfold forIndex; apply forNext_not_Fail; intros)
    | (apply bind_not_Fail; intros)
    | discriminate
    | match goal with
      | |- (if ?c then _ else _) <> _ => destruct c
      | |- match ?r with Some _ => _ | None => _ end <> _ => destruct r
      end ].

Ltac no_timeout :=
  repeat first
    [ apply slice_not_Timeout | apply index_not_Timeout
    | apply Elem_not_Timeout
    | (apply forIndex_not_Timeout; intros)
    | (apply altRegionScan_not_Timeout; unfold len; lia)
    | (apply bind_not_Timeout; [|intros])
    | discriminate
    | match goal with
      | |- (if ?c then _ else _) <> _ => destruct c
      | |- match ?r with Some _ => _ | None => _ end <> _ => destruct r
      end ].

(** One step through [m ≫= k = Fail e] when [m] reports no error. *)
Ltac step_fail H :=
  match type of H with
  | (?m ≫= _) = Fail _ =>
      let E := fresh "E" in
      destruct m eqn:E; cbn [mbind outcome_bind] in H;
      [ | exfalso; revert E; no_fail | discriminate H | discriminate H ]
  end.

Lemma getLangISO2_Fail R s e :
  getLangISO2 R s = Fail e ->
  e = errSyntax
  \/ exists s', FixCase (B "zz") s = Some s' /\ e = errInvalid s'.
Proof.
  unfold getLangISO2. destruct (FixCase (B "zz") s) as [s'|];
    [|intros [= <-]; now left].
  intros H. right. exists s'. split; [reflexivity|].
  destruct (_ =? -1); [now injection H as <-|].
  do 2 step_fail H. destruct (_ =? 0); [now injection H as <-|discriminate].
Qed.

Lemma getLangISO3_Fail R s e :
  getLangISO3 R s = Fail e ->
  e = errSyntax
  \/ exists s', FixCase (B "und") s = Some s' /\ e = errInvalid s'.
Proof.
  unfold getLangISO3. destruct (FixCase (B "und") s) as [s'|];
    [|intros [= <-]; now left].
  intros H. right. exists s'. split; [reflexivity|].
  do 5 step_fail H.
  match type of H with match ?r with _ => _ end = _ => destruct r end;
    [discriminate|].
  destruct (negb _).
  - do 3 step_fail H. discriminate.
  - step_fail H. destruct (negb _); [discriminate|].
    step_fail H.
    match type of H with match ?r with _ => _ end = _ => destruct r end;
      [discriminate|now injection H as <-].
Qed.

Lemma getLangID_not_Timeout R s : getLangID R s <> Timeout.
Proof.
  unfold getLangID, getLangISO2, getLangISO3.
  destruct (_ =? 2); destruct (FixCase _ s); no_timeout.
Qed.

(** X6. The language resolver reports only two failures: the syntax
    failure [errSyntax], or the failure that [mkErrInvalid] builds from
    the lower-cased input (and then the input is 2 or 3 letters).  Its
    scans always come to an end. *)
Theorem getLangID_failures (R : Registry) (s : list Z) :
  (forall e, getLangID R s = Fail e ->
     e = errSyntax
     \/ (e = mkErrInvalid (toLower s)
         /\ Forall (fun c => isLetter c = true) s
         /\ (length s = 2%nat \/ length s = 3%nat)))
  /\ getLangID R s <> Timeout.
Proof.
  split; [|apply getLangID_not_Timeout].
  assert (Hzz : Forall (fun f => isLower f = true) (B "zz"))
    by (repeat constructor).
  assert (Hund : Forall (fun f => isLower f = true) (B "und"))
    by (repeat constructor).
  intros e. unfold getLangID, mkErrInvalid. destruct (_ =? 2); intros H.
  - apply getLangISO2_Fail in H as [->|(s' & Hfix & ->)]; [now left|right].
    pose proof (FixCase_length _ _ _ Hfix) as [Hlen _].
    apply (FixCase_lower_Some _ _ _ Hzz) in Hfix as [-> Hs].
    cbn in Hlen. auto.
  - apply getLangISO3_Fail in H as [->|(s' & Hfix & ->)]; [now left|right].
    pose proof (FixCase_length _ _ _ Hfix) as [Hlen _].
    apply (FixCase_lower_Some _ _ _ Hund) in Hfix as [-> Hs].
    cbn in Hlen. auto.
Qed.

Lemma getLangID_failures_witness :
  mkErrInvalid (B "xx") = errSyntax
  \/ (mkErrInvalid (B "xx") = mkErrInvalid (toLower (B "XX"))
      /\ Forall (fun c => isLetter c = true) (B "XX")
      /\ (length (B "XX") = 2%nat \/ length (B "XX") = 3%nat)).
Proof.
  apply (proj1 (getLangID_failures sample (B "XX")) (mkErrInvalid (B "xx"))).
  reflexivity.
Defined.

Lemma getRegionISO2_Fail R s e :
  getRegionISO2 R s = Fail e ->
  e = errSyntax \/ (e = errInvalid (toUpper s) /\ length s = 2%nat).
Proof.
  unfold getRegionISO2, findIndex.
  destruct (FixCase (B "ZZ") s) as [s'|] eqn:Hfix;
    [|intros [= <-]; now left].
  pose proof (FixCase_length _ _ _ Hfix) as [Hlen _].
  apply (FixCase_upper_Some (B "ZZ")) in Hfix as [-> _];
    [|repeat constructor].
  destruct (_ =? -1); cbn [mbind outcome_bind]; [|discriminate].
  intros [= <-]. right. cbn in Hlen. auto.
Qed.

Lemma getRegionISO3_Fail R s e :
  getRegionISO3 R s = Fail e ->
  e = errSyntax \/ (e = errInvalid (toUpper s) /\ length s = 3%nat).
Proof.
  unfold getRegionISO3.
  destruct (FixCase (B "ZZZ") s) as [s'|] eqn:Hfix;
    [|intros [= <-]; now left].
  pose proof (FixCase_length _ _ _ Hfix) as [Hlen _].
  apply (FixCase_upper_Some (B "ZZZ")) in Hfix as [-> _];
    [|repeat constructor].
  intros H. right. split; [|cbn in Hlen; auto].
  do 4 step_fail H.
  match type of H with match ?r with _ => _ end = _ => destruct r end;
    [discriminate|].
  step_fail H.
  match type of H with match ?r with _ => _ end = _ => destruct r end;
    [discriminate|now injection H as <-].
Qed.

Lemma m49Lookup_not_Fail R n e : m49Lookup R n <> Fail e.
Proof. unfold m49Lookup. no_fail. Qed.

Lemma getRegionM49_Fail R n e :
  getRegionM49 R n = Fail e -> e = ValueError (replicate (valueErrorLen R) 0).
Proof.
  unfold getRegionM49. rewrite !m49Error_zero.
  destruct (_ && _); [|now intros [= <-]].
  intros H. step_fail H.
  match type of H with match ?r with _ => _ end = _ => destruct r end;
    [discriminate|now injection H as <-].
Qed.

Lemma getRegionID_not_Timeout R s : getRegionID R s <> Timeout.
Proof.
  unfold getRegionID.
  assert (H2 : getRegionISO2 R s <> Timeout).
  { unfold getRegionISO2, findIndex.
    destruct (FixCase _ s); [|discriminate].
    destruct (_ =? -1); discriminate. }
  destruct (_ =? 3); [|exact H2].
  apply bind_not_Timeout; [apply index_not_Timeout|]. intros c.
  destruct (isAlpha c); [apply getRegionISO3_not_Timeout|].
  destruct (ParseUint10 s 10); [|exact H2].
  unfold getRegionM49, m49Lookup. no_timeout.
Qed.

(** X7. The region resolver reports exactly three failures: the syntax
    failure, the invalid-subtag failure carrying the upper-cased input
    (of length 2 or 3), or the [ValueError] of the numeric path, whose
    payload is all zero bytes.  Its scans always come to an end. *)
Theorem getRegionID_failure_kinds (R : Registry) (s : list Z) :
  (forall e, getRegionID R s = Fail e ->
     e = errSyntax
     \/ (e = errInvalid (toUpper s) /\ (length s = 2%nat \/ length s = 3%nat))
     \/ (e = ValueError (replicate (valueErrorLen R) 0)
         /\ length s = 3%nat /\ Forall (fun c => isDigit c = true) s))
  /\ getRegionID R s <> Timeout.
Proof.
  split; [|apply getRegionID_not_Timeout].
  intros e. unfold getRegionID.
  assert (H2 : getRegionISO2 R s = Fail e ->
               e = errSyntax
               \/ (e = errInvalid (toUpper s)
                   /\ (length s = 2%nat \/ length s = 3%nat))
               \/ (e = ValueError (replicate (valueErrorLen R) 0)
                   /\ length s = 3%nat
                   /\ Forall (fun c => isDigit c = true) s)).
  { intros H. apply getRegionISO2_Fail in H as [->|[-> Hlen]]; auto. }
  destruct (Z.eqb_spec (len s) 3) as [Hlen|_]; [|exact H2].
  intros H. step_fail H.
  destruct (isAlpha _).
  - apply getRegionISO3_Fail in H as [->|[-> Hl]]; auto.
  - destruct (ParseUint10 s 10) as [n|] eqn:Hp; [|now apply H2].
    apply getRegionM49_Fail in H as ->. right. right.
    split; [reflexivity|]. split; [unfold len in Hlen; lia|].
    eapply ParseUint10_Some; eauto.
Qed.

Lemma getRegionID_failure_kinds_witness :
  ValueError [0; 0; 0; 0; 0; 0; 0; 0] = errSyntax
  \/ (ValueError [0; 0; 0; 0; 0; 0; 0; 0] = errInvalid (toUpper (B "998"))
      /\ (length (B "998") = 2%nat \/ length (B "998") = 3%nat))
  \/ (ValueError [0; 0; 0; 0; 0; 0; 0; 0]
      = ValueError (replicate (valueErrorLen sample) 0)
      /\ length (B "998") = 3%nat
      /\ Forall (fun c => isDigit c = true) (B "998")).
Proof.
  apply (proj1 (getRegionID_failure_kinds sample (B "998"))
           (ValueError [0; 0; 0; 0; 0; 0; 0; 0])).
  reflexivity.
Defined.

(** ** Rendering what was resolved *)

Lemma slice_record_2 (e : list Z) :
  length e = 4%nat -> slice e 0 2 = Ret (take 2 e).
Proof.
  intros Hlen. destruct e as [|a [|b [|c [|d [|? ?]]]]]; try discriminate.
  reflexivity.
Qed.

Lemma slice_record_3 (e : list Z) :
  length e = 4%nat -> slice e 0 3 = Ret (take 3 e).
Proof.
  intros Hlen. destruct e as [|a [|b [|c [|d [|? ?]]]]]; try discriminate.
  reflexivity.
Qed.

(** X8. Rendering a resolved 2-letter language code gives the code back
    in lower case: when [getLangISO2] returns an identifier other than
    [0], and the table slots lie below the no-index range,
    [langID.String] of that identifier is the lower-cased input. *)
Theorem langID_String_getLangISO2 (R : Registry) (s : list Z) (id : Z) :
  len (lang R) / 4 <= langNoIndexOffset R ->
  len (lang R) / 4 <= 65536 ->
  getLangISO2 R s = Ret id -> id <> 0 ->
  langID_String R id = Ret (toLower s).
Proof.
  intros Hoff H16. unfold getLangISO2.
  destruct (FixCase (B "zz") s) as [s'|] eqn:Hfix; [|discriminate].
  pose proof (FixCase_length _ _ _ Hfix) as [Hlen _].
  apply (FixCase_lower_Some (B "zz")) in Hfix as [-> _];
    [|repeat constructor].
  destruct (Z.eqb_spec (Index_Index (lang R) (toLower s)) (-1)) as [|Hne];
    [discriminate|].
  destruct (Index_Index_hit _ _ Hne) as [Hin Hrec].
  set (i := Index_Index (lang R) (toLower s)) in *.
  rewrite (Elem_recPrefix _ _ Hin). cbn [mbind outcome_bind].
  destruct (record_shape _ _ Hin) as (a & b & c & d & Hshape).
  rewrite Hshape. change (index [a; b; c; d] 3) with (@Ret Z d).
  cbn [mbind outcome_bind].
  destruct (Z.eqb_spec d 0) as [|Hd]; [discriminate|].
  rewrite u16_small by lia. intros [= <-] Hid.
  unfold langID_String.
  destruct (Z.eqb_spec i 0); [contradiction|].
  destruct (Z.leb_spec (langNoIndexOffset R) i); [lia|].
  rewrite (Elem_recPrefix _ _ Hin), Hshape. cbn [mbind outcome_bind].
  change (index [a; b; c; d] 3) with (@Ret Z d). cbn [mbind outcome_bind].
  destruct (Z.eqb_spec d 0); [contradiction|].
  change (slice [a; b; c; d] 0 2) with (@Ret (list Z) [a; b]).
  f_equal. rewrite <- Hrec.
  replace (len (toLower s)) with 2
    by (unfold len; rewrite length_toLower; cbn in Hlen; lia).
  now rewrite recPrefix_take, Hshape by lia.
Qed.

Lemma langID_String_getLangISO2_witness :
  langID_String sample 4 = Ret (toLower (B "EN")).
Proof.
  apply (langID_String_getLangISO2 sample (B "EN") 4).
  - vm_compute. discriminate.
  - vm_compute. discriminate.
  - reflexivity.
  - discriminate.
Defined.

(** X9. Rendering a resolved 2-letter region code gives the code back in
    upper case: when [getRegionISO2] returns an identifier (the region
    identifiers fitting 16 bits), [regionID.String] of it is the
    upper-cased input, and the identifier is at least
    [isoRegionOffset]. *)
Theorem regionID_String_getRegionISO2 (R : Registry) (s : list Z) (id : Z) :
  0 <= isoRegionOffset R ->
  isoRegionOffset R + len (regionISO R) / 4 <= 65536 ->
  getRegionISO2 R s = Ret id ->
  isoRegionOffset R <= id /\ regionID_String R id = Ret (toUpper s).
Proof.
  intros Hoff H16. unfold getRegionISO2.
  destruct (findIndex (regionISO R) s (B "ZZ")) as [i| | |] eqn:Hi;
    try discriminate.
  cbn [mbind outcome_bind]. intros [= <-].
  apply findIndex_Ret in Hi as (key' & Hfix & Hin & Hrec).
  pose proof (FixCase_length _ _ _ Hfix) as [Hlen _].
  apply (FixCase_upper_Some (B "ZZ")) in Hfix as [-> _];
    [|repeat constructor].
  rewrite (u16_small i), (u16_small (i + isoRegionOffset R)) by lia.
  split; [lia|]. unfold regionID_String.
  destruct (Z.ltb_spec (i + isoRegionOffset R) (isoRegionOffset R)); [lia|].
  replace (i + isoRegionOffset R - isoRegionOffset R) with i by lia.
  rewrite (u16_small i) by lia.
  rewrite (Elem_recPrefix _ _ Hin). cbn [mbind outcome_bind].
  rewrite slice_record_2 by now apply recPrefix_length.
  f_equal. etransitivity; [|exact Hrec].
  replace (len (toUpper s)) with 2
    by (unfold len; rewrite length_toUpper; cbn in Hlen; lia).
  now rewrite (recPrefix_take _ _ 2) by lia.
Qed.

Lemma regionID_String_getRegionISO2_witness :
  isoRegionOffset sample <= 9 /\ regionID_String sample 9 = Ret (toUpper (B "us")).
Proof.
  apply (regionID_String_getRegionISO2 sample (B "us") 9).
  - vm_compute. discriminate.
  - vm_compute. discriminate.
  - reflexivity.
Defined.

Lemma FixCase_Zzzz s r :
  FixCase (B "Zzzz") s = Some r ->
  length s = 4%nat
  /\ r = match s with
         | c :: t => upperByte c :: toLower t
         | [] => []
         end.
Proof.
  intros H. pose proof (FixCase_length _ _ _ H) as [Hlen _].
  split; [cbn in Hlen; lia|].
  destruct s as [|c t]; [discriminate|].
  change (B "Zzzz") with (90 :: B "zzz") in H. cbn [FixCase] in H.
  unfold fixByte at 1 in H. change (isUpper 90) with true in H. cbn match in H.
  destruct (isLetter c); [|discriminate].
  destruct (FixCase (B "zzz") t) as [r'|] eqn:Hr; [|discriminate].
  injection H as <-.
  apply (FixCase_lower_Some (B "zzz")) in Hr as [-> _]; [reflexivity|].
  repeat constructor.
Qed.

(** X10. Scripts and currencies, for the tables of the registry: when
    [getScriptID] on [script] returns an identifier other than [0] (at
    most 256 slots), [scriptID.String] renders it as the input in title
    case; when [getCurrencyID] on [currency] returns an identifier other
    than [0], [currencyID.String] renders it as the upper-cased input. *)
Theorem String_getScriptID_getCurrencyID (R : Registry) (s : list Z) (id : Z) :
  (len (script R) / 4 <= 256 ->
   getScriptID (script R) s = Ret id -> id <> 0 ->
   scriptID_String R id
   = Ret (match s with
          | c :: t => upperByte c :: toLower t
          | [] => []
          end))
  /\ (len (currency R) / 4 <= 65536 ->
      getCurrencyID (currency R) s = Ret id -> id <> 0 ->
      currencyID_String R id = Ret (toUpper s)).
Proof.
  split.
  - intros Hsize. unfold getScriptID.
    destruct (findIndex (script R) s (B "Zzzz")) as [i| | |] eqn:Hi;
      try discriminate.
    cbn [mbind outcome_bind]. intros [= <-].
    apply findIndex_Ret in Hi as (key' & Hfix & Hin & Hrec).
    pose proof (FixCase_length _ _ _ Hfix) as [Hlen _].
    pose proof (FixCase_length _ _ _ Hfix) as [_ Hlen'].
    apply FixCase_Zzzz in Hfix as [Hs ->].
    rewrite u8_small by lia. intros Hi0. unfold scriptID_String.
    destruct (Z.eqb_spec i 0); [contradiction|].
    rewrite (Elem_recPrefix _ _ Hin). f_equal.
    etransitivity; [|exact Hrec].
    f_equal. unfold len. rewrite Hlen', Hs. reflexivity.
  - intros Hsize. unfold getCurrencyID.
    destruct (findIndex (currency R) s (B "XXX")) as [i| | |] eqn:Hi;
      try discriminate.
    cbn [mbind outcome_bind]. intros [= <-].
    apply findIndex_Ret in Hi as (key' & Hfix & Hin & Hrec).
    pose proof (FixCase_length _ _ _ Hfix) as [Hlen _].
    apply (FixCase_upper_Some (B "XXX")) in Hfix as [-> _];
      [|repeat constructor].
    rewrite u16_small by lia. intros Hi0. unfold currencyID_String.
    destruct (Z.eqb_spec i 0); [contradiction|].
    rewrite (Elem_recPrefix _ _ Hin). cbn [mbind outcome_bind].
    rewrite slice_record_3 by now apply recPrefix_length.
    f_equal. etransitivity; [|exact Hrec].
    replace (len (toUpper s)) with 3
      by (unfold len; rewrite length_toUpper; cbn in Hlen; lia).
    now rewrite (recPrefix_take _ _ 3) by lia.
Qed.

Lemma String_getScriptID_getCurrencyID_witness :
  scriptID_String sample 1 = Ret (B "Latn")
  /\ currencyID_String sample 2 = Ret (toUpper (B "usd")).
Proof.
  split.
  - apply (proj1 (String_getScriptID_getCurrencyID sample (B "lATN") 1)).
    + vm_compute. discriminate.
    + reflexivity.
    + discriminate.
  - apply (proj2 (String_getScriptID_getCurrencyID sample (B "usd") 2)).
    + vm_compute. discriminate.
    + reflexivity.
    + discriminate.
Defined.

(** ** normLang: hit, miss and a short classification table *)

(** X11. [normLang] on a table strictly ascending in [from]: an
    identifier without entry comes back unchanged with
    [langAliasTypeUnknown]; an identifier with an entry at position [p]
    is replaced by the entry's [to], classified by [langAliasTypes[p]];
    and when [langAliasTypes] is too short to have position [p], the
    lookup panics (index out of range). *)
Theorem normLang_spec (R : Registry) (id : Z) :
  ((forall e, e ∈ langAliasMap R -> from e <> id) ->
     normLang R id = Ret (id, langAliasTypeUnknown R))
  /\ (forall p e,
        ascending (langAliasMap R) = true ->
        langAliasMap R !! p = Some e -> from e = id ->
        normLang R id
        = match langAliasTypes R !! p with
          | Some t => Ret (to e, t)
          | None => Panic
          end).
Proof.
  split; [apply normLang_miss|].
  intros p e Hasc Hp Hfrom. unfold normLang.
  rewrite (alias_search_found _ id p e Hasc Hp Hfrom).
  pose proof (lookup_lt_Some _ _ _ Hp) as Hlt.
  destruct (Z.ltb_spec (Z.of_nat p) (len (langAliasMap R))) as [_|Hge];
    [|unfold len in Hge; lia].
  rewrite Nat2Z.id, Hp, Hfrom, Z.eqb_refl. unfold index.
  destruct (Z.ltb_spec (Z.of_nat p) 0); [lia|].
  rewrite Nat2Z.id. now destruct (langAliasTypes R !! p).
Qed.

Lemma normLang_spec_witness :
  normLang sample 7 = Ret (7, langAliasTypeUnknown sample)
  /\ normLang sample 6
     = match langAliasTypes sample !! 1%nat with
       | Some t => Ret (to {| from := 6; to := 5 |}, t)
       | None => Panic
       end.
Proof.
  split.
  - apply (proj1 (normLang_spec sample 7)).
    intros e He. apply list_elem_of_In in He. cbn in He.
    destruct He as [<-|[<-|[]]]; cbn; lia.
  - apply (proj2 (normLang_spec sample 6) 1%nat {| from := 6; to := 5 |});
      reflexivity.
Defined.

(** ** The numeric region path *)

Lemma land_511 x : 0 <= Z.land x 511 < 512.
Proof.
  change 511 with (Z.ones 9). rewrite Z.land_ones by lia.
  apply Z.mod_pos_bound. lia.
Qed.

Lemma land_65024 x : 0 <= x < 65536 -> Z.land x 65024 = 512 * (x / 512).
Proof.
  intros Hx. apply Z.bits_inj'. intros k Hk.
  rewrite Z.land_spec. change 65024 with (Z.shiftl (Z.ones 7) 9).
  change 512 with (2 ^ 9).
  rewrite Z.mul_comm, <- Z.shiftl_mul_pow2, <- Z.shiftr_div_pow2 by lia.
  rewrite !Z.shiftl_spec by lia.
  destruct (Z.ltb_spec k 9) as [Hlt|Hge].
  - rewrite !(Z.testbit_neg_r _ (k - 9)) by lia. apply andb_false_r.
  - rewrite Z.shiftr_spec by lia. replace (k - 9 + 9) with k by lia.
    destruct (Z.ltb_spec k 16) as [Hlt|Hge'].
    + rewrite Z.ones_spec_low by lia. apply andb_true_r.
    + rewrite Z.ones_spec_high by lia. rewrite andb_false_r.
      destruct (Z.eq_dec x 0) as [->|Hne]; [now rewrite Z.bits_0|].
      symmetry. apply Z.bits_above_log2; [lia|].
      assert (Z.log2 x < 16) by (apply Z.log2_lt_pow2; lia). lia.
Qed.

Lemma bind_Ret_inv {A C} (m : outcome A) (k : A -> outcome C) c :
  m ≫= k = Ret c -> exists a, m = Ret a /\ k a = Ret c.
Proof. destruct m as [a| | |]; cbn; try discriminate. eauto. Qed.

Lemma index_Ret_elem {A} (l : list A) i x :
  index l i = Ret x -> 0 <= i /\ l !! Z.to_nat i = Some x.
Proof.
  unfold index. destruct (Z.ltb_spec i 0); [discriminate|].
  destruct (l !! Z.to_nat i); [|discriminate]. intros [= ->]. auto.
Qed.

(** X12. What [getRegionM49] returns is backed by the table: a result
    [r] is only returned for [0 < n <= 999], it is below 512 (9 bits),
    and [fromM49] has an entry whose upper 7 bits are the low 7 bits of
    [n] and whose lower 9 bits are [r]. *)
Theorem getRegionM49_sound (R : Registry) (n r : Z) :
  getRegionM49 R n = Ret r ->
  0 < n <= 999 /\ 0 <= r < 512
  /\ exists e, e ∈ fromM49 R
       /\ Z.land e 65024 = u16 (Z.shiftl (u16 n) 9) /\ r = Z.land e 511.
Proof.
  unfold getRegionM49.
  destruct (Z.ltb_spec 0 n); [|discriminate].
  destruct (Z.leb_spec n 999); [|discriminate].
  cbn [andb]. intros Hret.
  apply bind_Ret_inv in Hret as ([r'|] & Hlook & Hret); [|discriminate].
  injection Hret as <-. unfold m49Lookup in Hlook.
  apply bind_Ret_inv in Hlook as (lo & _ & Hlook).
  apply bind_Ret_inv in Hlook as (hi & _ & Hlook).
  apply bind_Ret_inv in Hlook as (bucket & _ & Hlook).
  apply bind_Ret_inv in Hlook as (e & He & Hlook).
  change (Z.lxor 65535 regionMask) with 65024 in Hlook.
  change regionMask with 511 in Hlook. change regionBits with 9 in Hlook.
  destruct (Z.eqb_spec (Z.land e 65024) (u16 (Z.shiftl (u16 n) 9)));
    [|discriminate].
  injection Hlook as <-.
  split; [lia|]. split; [apply land_511|].
  exists e. apply index_Ret_elem in He as [_ He].
  split; [eapply list_elem_of_lookup_2; eauto|]. auto.
Qed.

Lemma getRegionM49_sound_witness :
  0 < 840 <= 999 /\ 0 <= 9 < 512
  /\ exists e, e ∈ fromM49 sample
       /\ Z.land e 65024 = u16 (Z.shiftl (u16 840) 9) /\ 9 = Z.land e 511.
Proof. apply (getRegionM49_sound sample 840 9). reflexivity. Defined.

Lemma slice_Ret {A} (l b : list A) lo hi :
  slice l lo hi = Ret b ->
  0 <= lo /\ lo <= hi /\ hi <= len l
  /\ b = take (Z.to_nat (hi - lo)) (drop (Z.to_nat lo) l).
Proof.
  unfold slice, len.
  destruct (Z.leb_spec 0 lo); [|discriminate].
  destruct (Z.leb_spec lo hi); [|discriminate].
  destruct (Z.leb_spec hi (Z.of_nat (length l))); [|discriminate].
  cbn. intros [= <-]. auto.
Qed.

(** X13. [getRegionM49] finds what the table holds: for [0 < n <= 999],
    when the bucket [fromM49[m49Index[n>>7] : m49Index[n>>7 + 1]]] is
    ascending and has exactly one entry [e] (a 16-bit value) whose upper
    7 bits are the low 7 bits of [n], the result is the lower 9 bits of
    [e]. *)
Theorem getRegionM49_complete (R : Registry) (n lo hi e : Z)
    (bucket : list Z) (p : nat) :
  0 < n <= 999 ->
  index (m49Index R) (Z.shiftr n 7) = Ret lo ->
  index (m49Index R) (Z.shiftr n 7 + 1) = Ret hi ->
  slice (fromM49 R) lo hi = Ret bucket ->
  ascendingZ bucket = true ->
  bucket !! p = Some e -> 0 <= e < 65536 ->
  Z.land e 65024 = u16 (Z.shiftl (u16 n) 9) ->
  (forall q e', bucket !! q = Some e' ->
                Z.land e' 65024 = u16 (Z.shiftl (u16 n) 9) -> e' = e) ->
  getRegionM49 R n = Ret (Z.land e 511).
Proof.
  intros Hn Hlo Hhi Hb Hasc Hp He Hkey Huniq.
  unfold getRegionM49.
  destruct (Z.ltb_spec 0 n); [|lia]. destruct (Z.leb_spec n 999); [|lia].
  cbn [andb]. unfold m49Lookup. change searchBits with 7.
  rewrite Hlo. cbn [mbind outcome_bind]. rewrite Hhi. cbn [mbind outcome_bind].
  rewrite Hb. cbn [mbind outcome_bind]. cbn zeta.
  change regionBits with 9. change (Z.lxor 65535 regionMask) with 65024.
  change regionMask with 511.
  set (val := u16 (Z.shiftl (u16 n) 9)) in *.
  destruct (search_ge_spec bucket val Hasc) as (Hi & Hbelow & Habove).
  set (i := sort_Search (len bucket) (fun i => val <=? at_ bucket i)) in *.
  pose proof (lookup_lt_Some _ _ _ Hp) as Hplen.
  assert (Hpe : at_ bucket (Z.of_nat p) = e)
    by (apply at_lookup; [now rewrite Nat2Z.id|lia]).
  assert (Hval : val = 512 * (e / 512)) by (rewrite <- Hkey; now apply land_65024).
  assert (Hev : val <= e) by (pose proof (Z.mul_div_le e 512); lia).
  assert (Hip : i <= Z.of_nat p).
  { destruct (Z.le_gt_cases i (Z.of_nat p)) as [|Hgt]; [assumption|].
    specialize (Hbelow (Z.of_nat p)). lia. }
  assert (Hilen : 0 <= i < len bucket) by (unfold len; lia).
  pose proof (at_in_range bucket i Hilen) as Hxi.
  set (x := at_ bucket i) in *.
  assert (Hxe : x <= e).
  { apply (ascendingZ_lookup bucket (Z.to_nat i) p); auto. lia. }
  assert (Hvx : val <= x) by (apply Habove; lia).
  assert (Hv0 : 0 <= val)
    by (unfold val, u16; apply Z.mod_pos_bound; lia).
  assert (Hx : x = e).
  { apply (Huniq (Z.to_nat i)); [assumption|].
    rewrite land_65024 by lia. rewrite Hval. f_equal.
    assert (e / 512 <= x / 512)
      by (apply Z.div_le_lower_bound; lia).
    assert (x / 512 <= e / 512) by (apply Z.div_le_mono; lia). lia. }
  apply slice_Ret in Hb as (Hlo0 & Hlohi & Hhilen & ->).
  assert (Hfrom : index (fromM49 R) (lo + i) = Ret x).
  { unfold index. destruct (Z.ltb_spec (lo + i) 0); [lia|].
    unfold len in Hilen. rewrite length_take, length_drop in Hilen.
    rewrite lookup_take_lt, lookup_drop in Hxi by lia.
    replace (Z.to_nat (lo + i)) with (Z.to_nat lo + Z.to_nat i)%nat by lia.
    now rewrite Hxi. }
  rewrite Hfrom. cbn [mbind outcome_bind]. rewrite Hx, Hkey, Z.eqb_refl.
  reflexivity.
Qed.

Lemma getRegionM49_complete_witness :
  getRegionM49 sample 840 = Ret (Z.land 36873 511).
Proof.
  apply (getRegionM49_complete sample 840 5 7 36873 [29703; 36873] 1).
  - lia.
  - reflexivity.
  - reflexivity.
  - reflexivity.
  - reflexivity.
  - reflexivity.
  - lia.
  - reflexivity.
  - intros q e' Hq Hk. destruct q as [|[|q]]; cbn in Hq; try discriminate.
    + injection Hq as <-. vm_compute in Hk. discriminate.
    + now injection Hq as <-.
Defined.

Lemma getRegionID_digits R d0 d1 d2 :
  isDigit d0 = true -> isDigit d1 = true -> isDigit d2 = true ->
  getRegionID R [d0; d1; d2]
  = getRegionM49 R (100 * (d0 - 48) + 10 * (d1 - 48) + (d2 - 48)).
Proof.
  intros H0 H1 H2. unfold getRegionID.
  change (len [d0; d1; d2] =? 3) with true. cbn match.
  change (index [d0; d1; d2] 0) with (@Ret Z d0). cbn [mbind outcome_bind].
  unfold isAlpha. rewrite (isDigit_not_letter d0 H0).
  unfold ParseUint10. cbn [parseDigits]. rewrite H0, H1, H2.
  apply isDigit_range in H0, H1, H2.
  destruct (Z.ltb_spec (((0 * 10 + (d0 - 48)) * 10 + (d1 - 48)) * 10 + (d2 - 48))
              (2 ^ 10)) as [_|Hge]; [f_equal; lia|].
  change (2 ^ 10) with 1024 in Hge. lia.
Qed.

Lemma Sprintf03d_digits n :
  0 <= n <= 999 ->
  exists d0 d1 d2,
    Sprintf03d n = [d0; d1; d2]
    /\ isDigit d0 = true /\ isDigit d1 = true /\ isDigit d2 = true
    /\ 100 * (d0 - 48) + 10 * (d1 - 48) + (d2 - 48) = n.
Proof.
  intros Hn.
  assert (Hall : forallb
            (fun n => match Sprintf03d n with
                      | [a; b; c] =>
                          isDigit a && isDigit b && isDigit c
                          && (100 * (a - 48) + 10 * (b - 48) + (c - 48) =? n)
                      | _ => false
                      end) (seqZ 0 1000) = true) by (vm_compute; reflexivity).
  rewrite forallb_forall in Hall. specialize (Hall n).
  destruct (Sprintf03d n) as [|a [|b [|c [|? ?]]]];
    try (discriminate Hall; apply list_elem_of_In, elem_of_seqZ; lia).
  assert (Hin : In n (seqZ 0 1000))
    by (apply list_elem_of_In, elem_of_seqZ; lia).
  specialize (Hall Hin).
  rewrite !andb_true_iff, Z.eqb_eq in Hall.
  destruct Hall as (((Ha & Hb) & Hc) & Heq). exists a, b, c. auto.
Qed.

(** X14. The numeric path composes: a string of three digits resolves as
    [getRegionM49] of the number it spells (leading zeros included); and
    rendering a numeric-only region identifier [r], whose M.49 code
    [m49[r]] is [n] in [0..999], then resolving the result, is
    [getRegionM49(n)]. *)
Theorem numeric_region_path (R : Registry) :
  (forall d0 d1 d2,
     isDigit d0 = true -> isDigit d1 = true -> isDigit d2 = true ->
     getRegionID R [d0; d1; d2]
     = getRegionM49 R (100 * (d0 - 48) + 10 * (d1 - 48) + (d2 - 48)))
  /\ (forall r n,
        0 < r < isoRegionOffset R ->
        regionID_M49 R r = Ret n -> 0 <= n <= 999 ->
        regionID_String R r ≫= getRegionID R = getRegionM49 R n).
Proof.
  split; [apply getRegionID_digits|].
  intros r n Hr Hm Hn. unfold regionID_String.
  destruct (Z.ltb_spec r (isoRegionOffset R)); [|lia].
  destruct (Z.eqb_spec r 0); [lia|].
  rewrite Hm. cbn [mbind outcome_bind].
  destruct (Sprintf03d_digits n Hn) as (d0 & d1 & d2 & -> & H0 & H1 & H2 & <-).
  now apply getRegionID_digits.
Qed.

Lemma numeric_region_path_witness :
  getRegionID sample (B "002") = getRegionM49 sample 2
  /\ regionID_String sample 3 ≫= getRegionID sample = getRegionM49 sample 419.
Proof.
  destruct (numeric_region_path sample) as [Hdigits Hrender].
  split.
  - apply (Hdigits 48 48 50); reflexivity.
  - apply (Hrender 3 419); [vm_compute; split; reflexivity|reflexivity|lia].
Defined.

(** ** The ISO3 renderers *)

Lemma slice_length {A} (l b : list A) lo hi :
  slice l lo hi = Ret b -> Z.of_nat (length b) = hi - lo.
Proof.
  intros H. apply slice_Ret in H as (Hlo & Hlohi & Hhi & ->).
  unfold len in Hhi. rewrite length_take, length_drop. lia.
Qed.

Lemma intToStr_loop_length n : forall v b,
  length (intToStr_loop n v b) = length b.
Proof.
  induction n as [|i IH]; intros v b; cbn; [reflexivity|].
  now rewrite IH, length_insert.
Qed.

Lemma langID_String_length3 R b s :
  (b =? 0) || (langNoIndexOffset R <=? b) = true ->
  langID_String R b = Ret s -> length s = 3%nat.
Proof.
  unfold langID_String. intros Hb.
  destruct (b =? 0); [now intros [= <-]|]. cbn in Hb. rewrite Hb.
  intros [= <-]. unfold intToStr. now rewrite intToStr_loop_length.
Qed.

(** X15. The ISO3 renderers never produce anything but 3 bytes: whatever
    [langID.ISO3] and [regionID.ISO3] return has length 3 (whereas
    [String] may return 2 letters). *)
Theorem ISO3_length (R : Registry) (id : Z) (s : list Z) :
  (langID_ISO3 R id = Ret s -> length s = 3%nat)
  /\ (regionID_ISO3 R id = Ret s -> length s = 3%nat).
Proof.
  split.
  - unfold langID_ISO3.
    destruct ((id =? 0) || (langNoIndexOffset R <=? id)) eqn:Hb;
      [now apply langID_String_length3|].
    intros H.
    apply bind_Ret_inv in H as (l & _ & H).
    apply bind_Ret_inv in H as (l3 & _ & H).
    destruct (l3 =? 0).
    { apply slice_length in H. lia. }
    apply bind_Ret_inv in H as (l2 & _ & H).
    destruct (l2 =? 0).
    + apply bind_Ret_inv in H as (e & _ & H). apply slice_length in H. lia.
    + apply bind_Ret_inv in H as (h & Hh & H).
      apply bind_Ret_inv in H as (t & Ht & H). injection H as <-.
      apply slice_length in Hh, Ht. rewrite length_app. lia.
  - unfold regionID_ISO3.
    destruct (id <? isoRegionOffset R); [now intros [= <-]|].
    intros H.
    apply bind_Ret_inv in H as (reg & _ & H).
    apply bind_Ret_inv in H as (reg2 & _ & H).
    destruct (reg2 =? 0).
    + apply bind_Ret_inv in H as (reg3 & _ & H).
      apply bind_Ret_inv in H as (a & _ & H). apply slice_length in H. lia.
    + destruct (reg2 =? 32); [now injection H as <-|].
      apply bind_Ret_inv in H as (h & Hh & H).
      apply bind_Ret_inv in H as (t & Ht & H). injection H as <-.
      apply slice_length in Hh, Ht. rewrite length_app. lia.
Qed.

Lemma ISO3_length_witness :
  length (B "eng") = 3%nat /\ length (B "USA") = 3%nat.
Proof.
  split.
  - apply (proj1 (ISO3_length sample 4 (B "eng"))). reflexivity.
  - apply (proj2 (ISO3_length sample 9 (B "USA"))). reflexivity.
Defined.

Lemma cmp_take_1 (a b : list Z) :
  cmp (take 2 a) (take 2 b) <> 1 -> cmp (take 1 a) (take 1 b) <> 1.
Proof.
  destruct a as [|x a], b as [|y b]; cbn; try congruence.
  destruct (Z.ltb_spec y x); [congruence|].
  destruct (Z.ltb_spec x y); [congruence|].
  intros _. rewrite !take_0. cbn. congruence.
Qed.

Lemma sortedOn_1_of_2 s : sortedOn 2 s = true -> sortedOn 1 s = true.
Proof.
  unfold sortedOn. rewrite !forallb_forall. intros H i Hi.
  specialize (H i Hi). rewrite negb_true_iff, Z.eqb_neq in *.
  rewrite (recPrefix_take s i 1), (recPrefix_take s (i + 1) 1) by lia.
  rewrite (recPrefix_take s i 2), (recPrefix_take s (i + 1) 2) in H by lia.
  now apply cmp_take_1.
Qed.

Lemma firstISO3_spec R x a b c d :
  recPrefix (regionISO R) x 4 = [a; b; c; d] ->
  firstISO3 R x = true ->
  forall j b', 0 <= j < x -> recPrefix (regionISO R) j 4 <> [a; b'; c; d].
Proof.
  intros Hrec. unfold firstISO3. rewrite Hrec, forallb_forall.
  intros H j b' Hj Hj4. specialize (H j). rewrite Hj4 in H.
  rewrite !Z.eqb_refl in H. discriminate H.
  apply list_elem_of_In, elem_of_seqZ. lia.
Qed.

(** X16. 3-letter region codes round-trip: for a region identifier [r]
    whose slot of [regionISO] holds four upper-case letters and is the
    first slot with its 3-letter code, in a table sorted on its first
    two bytes, resolving [regionID.ISO3] of [r] gives [r] back. *)
Theorem regionID_ISO3_roundtrip (R : Registry) (r a b c d : Z) :
  sortedOn 2 (regionISO R) = true ->
  0 <= isoRegionOffset R -> r < 65536 ->
  0 <= r - isoRegionOffset R < len (regionISO R) / 4 ->
  recPrefix (regionISO R) (r - isoRegionOffset R) 4 = [a; b; c; d] ->
  Forall (fun x => isUpper x = true) [a; b; c; d] ->
  firstISO3 R (r - isoRegionOffset R) = true ->
  regionID_ISO3 R r = Ret [a; c; d]
  /\ getRegionID R [a; c; d] = Ret r.
Proof.
  intros Hs Hoff H16 Hx Hrec Hup Hfirst.
  set (x := r - isoRegionOffset R) in *.
  inversion Hup as [|? ? Ha Hup1]; subst.
  inversion Hup1 as [|? ? Hb Hup2]; subst.
  inversion Hup2 as [|? ? Hc Hup3]; subst.
  inversion Hup3 as [|? ? Hd _]; subst.
  pose proof Hc as Hc'. apply isUpper_range in Hc'.
  split.
  - unfold regionID_ISO3.
    destruct (Z.ltb_spec r (isoRegionOffset R)); [lia|].
    fold x. rewrite (u16_small x) by lia.
    rewrite (Elem_recPrefix _ _ Hx), Hrec. cbn [mbind outcome_bind].
    change (index [a; b; c; d] 2) with (@Ret Z c). cbn [mbind outcome_bind].
    destruct (Z.eqb_spec c 0); [lia|]. destruct (Z.eqb_spec c 32); [lia|].
    reflexivity.
  - unfold getRegionID. change (len [a; c; d] =? 3) with true. cbn match.
    change (index [a; c; d] 0) with (@Ret Z a). cbn [mbind outcome_bind].
    unfold isAlpha, isLetter. rewrite Ha, orb_true_r.
    unfold getRegionISO3.
    assert (Hacd : Forall (fun x => isUpper x = true) [a; c; d])
      by (repeat constructor; assumption).
    rewrite (FixCase_upper (B "ZZZ") [a; c; d]);
      [|repeat constructor| |reflexivity].
    2:{ eapply Forall_impl; [exact Hacd|]. cbn. intros y Hy.
        unfold isLetter. rewrite Hy. apply orb_true_r. }
    rewrite (toUpper_upper _ Hacd).
    change (slice [a; c; d] 0 1) with (@Ret (list Z) [a]).
    change (index [a; c; d] 1) with (@Ret Z c).
    change (index [a; c; d] 2) with (@Ret Z d).
    cbn [mbind outcome_bind].
    match goal with
    | |- context [forIndex (regionISO R) [a] ?body] =>
        assert (Hfor : forIndex (regionISO R) [a] body = Ret (Some r))
    end.
    { apply forIndex_reach with (t := x); auto.
      - change (len [a]) with 1. now apply sortedOn_1_of_2.
      - change (len [a]) with 1. rewrite recPrefix_take, Hrec by lia.
        reflexivity.
      - rewrite (Elem_recPrefix _ _ Hx), Hrec. cbn [mbind outcome_bind].
        change (index [a; b; c; d] 2) with (@Ret Z c).
        change (index [a; b; c; d] 3) with (@Ret Z d).
        cbn [mbind outcome_bind]. rewrite !Z.eqb_refl. cbn [andb].
        rewrite (u16_small x), u16_small by (unfold x; lia).
        do 2 f_equal. unfold x. lia.
      - intros j Hj Hpre. change (len [a]) with 1 in Hpre.
        assert (Hj' : 0 <= j < len (regionISO R) / 4) by lia.
        rewrite (Elem_recPrefix _ _ Hj').
        destruct (record_shape _ _ Hj') as (a' & b' & c' & d' & Hj4).
        rewrite recPrefix_take, Hj4 in Hpre by lia. injection Hpre as ->.
        rewrite Hj4. cbn [mbind outcome_bind].
        change (index [a; b'; c'; d'] 2) with (@Ret Z c').
        change (index [a; b'; c'; d'] 3) with (@Ret Z d').
        cbn [mbind outcome_bind].
        destruct (Z.eqb_spec c' c) as [->|]; [|reflexivity].
        destruct (Z.eqb_spec d' d) as [->|]; [|reflexivity].
        now destruct (firstISO3_spec R x a b c d Hrec Hfirst j b' Hj). }
    rewrite Hfor. reflexivity.
Qed.

Lemma regionID_ISO3_roundtrip_witness :
  regionID_ISO3 sample 9 = Ret (B "USA")
  /\ getRegionID sample (B "USA") = Ret 9.
Proof.
  apply (regionID_ISO3_roundtrip sample 9 85 83 83 65).
  - reflexivity.
  - vm_compute. discriminate.
  - lia.
  - vm_compute. split; discriminate || reflexivity.
  - reflexivity.
  - repeat constructor.
  - reflexivity.
Defined.

(** ** stringToBuf *)

Lemma intToStr_loop_ext n : forall v b b',
  length b = length b' -> drop n b = drop n b' ->
  intToStr_loop n v b = intToStr_loop n v b'.
Proof.
  induction n as [|i IH]; intros v b b' Hlen Hdrop; cbn [intToStr_loop].
  - now rewrite !drop_0 in Hdrop.
  - apply IH; [now rewrite !length_insert|].
    destruct (Nat.lt_ge_cases i (length b)) as [Hlt|Hge].
    + rewrite !insert_take_drop by lia.
      rewrite !drop_app_length' by (rewrite length_take; lia).
      now rewrite Hdrop.
    + rewrite !list_insert_ge by lia. rewrite !drop_ge by lia. reflexivity.
Qed.

Lemma intToStr_buffer v (b b' : list Z) :
  length b = length b' -> intToStr v b = intToStr v b'.
Proof.
  intros Hlen. unfold intToStr. rewrite <- Hlen.
  apply intToStr_loop_ext; [assumption|].
  rewrite !drop_ge by lia. reflexivity.
Qed.

(** X17. [stringToBuf] writes what [String] returns: for a buffer of
    length at least 3, whenever [langID.String] returns [s] for a
    language identifier ([langNoIndexOffset] being positive, and table
    identifiers staying below 16384 so that the 16-bit shift [id<<2] does
    not wrap), [stringToBuf] returns [len(s)] and leaves [s] at the start
    of the buffer, the rest of it untouched. *)
Theorem stringToBuf_String (R : Registry) (id : Z) (arr : list Z)
    (blen : nat) (s : list Z) :
  0 < langNoIndexOffset R -> 0 <= id < 65536 ->
  (id < langNoIndexOffset R -> id < 16384) ->
  (3 <= blen)%nat -> (blen <= length arr)%nat ->
  langID_String R id = Ret s ->
  stringToBuf R id arr blen = Ret (len s, s ++ drop (length s) arr).
Proof.
  intros Hoff Hid Hsmall Hblen Hcap. unfold langID_String, stringToBuf.
  destruct (Z.leb_spec (langNoIndexOffset R) id) as [Hge|Hlt].
  - destruct (Z.eqb_spec id 0); [lia|]. intros [= <-].
    destruct (Nat.leb_spec 3 (length arr)); [|lia].
    rewrite (u16_small (id - langNoIndexOffset R)) by lia.
    rewrite (intToStr_buffer _ [0; 0; 0] (take 3 arr))
      by (rewrite length_take; cbn [length]; lia).
    unfold len, intToStr. rewrite !intToStr_loop_length, length_take.
    replace (3 `min` length arr)%nat with 3%nat by lia. reflexivity.
  - destruct (Z.eqb_spec id 0) as [->|Hne].
    + intros [= <-]. cbn [length B]. 
      replace (Nat.min blen (length (B "und"))) with 3%nat
        by (cbn; lia). reflexivity.
    + intros H.
      apply bind_Ret_inv in H as (l & Hl & H).
      apply bind_Ret_inv in H as (l3 & Hl3 & H).
      apply Elem_Ret in Hl as [Hin ->].
      pose proof (recPrefix_length _ _ Hin) as Hlen4.
      rewrite Z.shiftl_mul_pow2 by lia. change (2 ^ 2) with 4.
      rewrite u16_small by lia.
      assert (H4 : 4 * (id + 1) <= len (lang R)).
      { pose proof (Z.mul_div_le (len (lang R)) 4). nia. }
      destruct (Z.leb_spec (id * 4) (len (lang R))); [|lia].
      set (l := drop (Z.to_nat (id * 4)) (lang R)).
      assert (Hrec : recPrefix (lang R) id 4 = take 4 l).
      { unfold recPrefix, l. do 2 f_equal. lia. }
      rewrite Hrec in *.
      assert (Hll : (4 <= length l)%nat).
      { unfold l. rewrite length_drop. unfold len in H4. lia. }
      assert (Hidx : index l 3 = Ret l3).
      { apply index_Ret_elem in Hl3 as [_ Hl3].
        rewrite lookup_take_lt in Hl3 by lia.
        unfold index. cbn. now rewrite Hl3. }
      rewrite Hidx. cbn [mbind outcome_bind].
      assert (Hcopy : forall k, (k <= 3)%nat ->
                slice (take 4 l) 0 (Z.of_nat k) = Ret s ->
                slice l 0 (Z.of_nat k) = Ret s /\ length s = k).
      { intros k Hk Hs. pose proof (slice_length _ _ _ _ Hs) as Hsl.
        apply slice_Ret in Hs as (_ & _ & _ & ->).
        split; [|lia]. unfold slice.
        destruct (Z.leb_spec 0 0); [|lia].
        destruct (Z.leb_spec 0 (Z.of_nat k)); [|lia].
        destruct (Z.leb_spec (Z.of_nat k) (Z.of_nat (length l))); [|lia].
        cbn [andb]. f_equal. rewrite !drop_0, take_take. f_equal. lia. }
      destruct (l3 =? 0).
      * destruct (Hcopy 3%nat ltac:(lia) H) as [Hsl Hs3].
        change (Z.of_nat 3) with 3 in Hsl. rewrite Hsl.
        cbn [mbind outcome_bind]. rewrite Hs3.
        replace (Nat.min blen 3) with 3%nat by lia.
        unfold len. rewrite Hs3, <- Hs3, firstn_all. now rewrite Hs3.
      * destruct (Hcopy 2%nat ltac:(lia) H) as [Hsl Hs2].
        change (Z.of_nat 2) with 2 in Hsl. rewrite Hsl.
        cbn [mbind outcome_bind]. rewrite Hs2.
        replace (Nat.min blen 2) with 2%nat by lia.
        unfold len. rewrite Hs2, <- Hs2, firstn_all. now rewrite Hs2.
Qed.

Lemma stringToBuf_String_witness :
  stringToBuf sample 4 [1; 2; 3; 4; 5] 3
  = Ret (len (B "en"), B "en" ++ drop (length (B "en")) [1; 2; 3; 4; 5]).
Proof.
  apply (stringToBuf_String sample 4 [1; 2; 3; 4; 5] 3 (B "en")).
  - reflexivity.
  - lia.
  - lia.
  - lia.
  - cbn. lia.
  - reflexivity.
Defined.

(** ** grandfathered never panics *)

(** X18. [grandfathered] always returns: when no value of
    [grandfatheredMap] is below [-6] (the six replacement literals are
    numbered [-1] to [-6]), every lookup, of a registered tag or not,
    yields a tag and a flag without panicking, and the flag is [true]
    exactly for the keys of the map. *)
Theorem grandfathered_total (Make : string -> Tag) (R : Registry) (s : string) :
  (forall k v, grandfatheredMap R !! k = Some v -> -6 <= v) ->
  exists t ok,
    grandfathered Make R s = Ret (t, ok)
    /\ (ok = true <-> is_Some (grandfatheredMap R !! s)).
Proof.
  intros Hmin. unfold grandfathered.
  destruct (grandfatheredMap R !! s) as [v|] eqn:Hs.
  - specialize (Hmin s v Hs).
    destruct (Z.ltb_spec v 0) as [Hneg|Hpos].
    + assert (Hcases : v = -1 \/ v = -2 \/ v = -3 \/ v = -4 \/ v = -5 \/ v = -6)
        by lia.
      destruct Hcases as [->|[->|[->|[->|[->| ->]]]]];
        do 2 eexists; (split; [reflexivity|]); split; eauto.
    + do 2 eexists. split; [reflexivity|]. split; eauto.
  - do 2 eexists. split; [reflexivity|]. split; [discriminate|].
    intros [? ?]. discriminate.
Qed.

Lemma grandfatheredMap_sample_min k v :
  grandfatheredMap sample !! k = Some v -> -6 <= v.
Proof.
  intros H. apply elem_of_list_to_map_2 in H. apply list_elem_of_In in H.
  cbn in H.
  repeat (destruct H as [H|H]; [injection H as <- <-; lia|]).
  destruct H.
Qed.

Lemma grandfathered_total_witness :
  exists t ok,
    grandfathered (fun _ => zeroTag) sample "zh-min" = Ret (t, ok)
    /\ (ok = true <-> is_Some (grandfatheredMap sample !! "zh-min"%string)).
Proof.
  apply (grandfathered_total (fun _ => zeroTag) sample "zh-min").
  exact grandfatheredMap_sample_min.
Defined.

(** ** The no-index range of language identifiers *)

Lemma Index_Next_spec idx key i :
  Index_Next idx key i = -1
  \/ (Index_Next idx key i = i + 1 /\ 4 * (i + 1) < len idx
      /\ recPrefix idx (i + 1) (len key) = key).
Proof.
  unfold Index_Next.
  destruct (Z.ltb_spec ((i + 1) * 4) (len idx)); cbn; auto.
  destruct (Z.eqb_spec (cmp (recPrefix idx (i + 1) (len key)) key) 0)
    as [Heq|]; auto.
  right. split; [reflexivity|]. split; [lia|]. now apply cmp_eq.
Qed.

(** A scan whose body falls through at every record with the prefix
    ends without a result. *)
Lemma forNext_miss {A} idx key (body : Z -> outcome (option A)) :
  (forall x, 0 <= x -> 4 * x < len idx ->
             recPrefix idx x (len key) = key -> body x = Ret None) ->
  forall fuel i,
    i = -1 \/ (0 <= i /\ 4 * i < len idx
               /\ recPrefix idx i (len key) = key
               /\ len idx - 4 * i <= Z.of_nat fuel) ->
    forNext fuel idx key body i = Ret None.
Proof.
  intros Hbody. induction fuel as [|fuel IH]; intros i Hi; cbn [forNext].
  - destruct (Z.eqb_spec i (-1)); [reflexivity|]. lia.
  - destruct (Z.eqb_spec i (-1)); [reflexivity|].
    destruct Hi as [|(Hi0 & Hi4 & Hpre & Hfuel)]; [contradiction|].
    rewrite (Hbody i Hi0 Hi4 Hpre). cbn [mbind outcome_bind].
    apply IH.
    destruct (Index_Next_spec idx key i) as [->|(-> & Hn4 & Hnpre)]; [auto|].
    right. repeat split; auto; lia.
Qed.

Lemma forIndex_miss {A} idx key (body : Z -> outcome (option A)) :
  (forall x, 0 <= x -> 4 * x < len idx ->
             recPrefix idx x (len key) = key -> body x = Ret None) ->
  forIndex idx key body = Ret None.
Proof.
  intros Hbody. unfold forIndex. apply forNext_miss; auto.
  destruct (Z.eq_dec (Index_Index idx key) (-1)) as [|Hne]; [auto|right].
  destruct (Index_Index_hit idx key Hne) as [Hin Hpre].
  pose proof (Z.mul_div_le (len idx) 4). unfold len in *.
  repeat split; auto; lia.
Qed.

(** X19. Identifiers of the no-index range round-trip: for
    [langNoIndexOffset <= id] with [id - langNoIndexOffset < 26^3],
    [langID.String] renders [id] as the 3 letters [s] that unpack
    [id - langNoIndexOffset]; and when no record of [lang] (a whole
    number of records) is [s] followed by [0], [s] is not in
    [altLangISO3] and the bit of [s] is set in [langNoIndex],
    [getLangID] resolves [s] to [id]. *)
Theorem langID_noindex_roundtrip (R : Registry) (id : Z) :
  0 < langNoIndexOffset R -> langNoIndexOffset R <= id < 65536 ->
  id - langNoIndexOffset R < 26 ^ 3 ->
  len (lang R) mod 4 = 0 ->
  (forall x, 0 <= x < len (lang R) / 4 ->
     recPrefix (lang R) x 4
     <> intToStr (id - langNoIndexOffset R) [0; 0; 0] ++ [0]) ->
  Index_Index (altLangISO3 R) (intToStr (id - langNoIndexOffset R) [0; 0; 0])
  = -1 ->
  (exists b, index (langNoIndex R) ((id - langNoIndexOffset R) / 8) = Ret b
     /\ Z.land b (u8 (Z.shiftl 1 ((id - langNoIndexOffset R) mod 8))) <> 0) ->
  langID_String R id = Ret (intToStr (id - langNoIndexOffset R) [0; 0; 0])
  /\ getLangID R (intToStr (id - langNoIndexOffset R) [0; 0; 0]) = Ret id.
Proof.
  intros Hoff Hid Hv Hmod Hnorec Halt (bt & Hbt & Hbit).
  set (v := id - langNoIndexOffset R) in *.
  destruct (intToStr_lower_pack uintSize v [0; 0; 0]) as (Hlen & Hlow & Hpack).
  { cbn [length]. change (Z.of_nat 3) with 3. lia. }
  { vm_compute. discriminate. }
  set (s := intToStr v [0; 0; 0]) in *.
  split.
  - unfold langID_String.
    destruct (Z.eqb_spec id 0); [lia|].
    destruct (Z.leb_spec (langNoIndexOffset R) id); [|lia].
    fold v. now rewrite (u16_small v) by lia.
  - unfold getLangID, len. rewrite Hlen. cbn [length].
    change (Z.of_nat 3 =? 2) with false. cbn match.
    destruct s as [|a [|b [|c [|? ?]]]] eqn:Es; try discriminate.
    unfold getLangISO3.
    rewrite (FixCase_lower (B "und") [a; b; c]);
      [|repeat constructor| |reflexivity].
    2:{ eapply Forall_impl; [exact Hlow|]. cbn. intros y Hy.
        unfold isLetter. now rewrite Hy. }
    rewrite (toLower_lower _ Hlow).
    change (slice [a; b; c] 0 2) with (@Ret (list Z) [a; b]).
    change (slice [a; b; c] 0 1) with (@Ret (list Z) [a]).
    change (index [a; b; c] 1) with (@Ret Z b).
    change (index [a; b; c] 2) with (@Ret Z c).
    cbn [mbind outcome_bind].
    match goal with
    | |- context [forIndex (lang R) [a; b] ?body] =>
        assert (Hfor : forIndex (lang R) [a; b] body = Ret None)
    end.
    { apply forIndex_miss.
      intros x Hx0 Hx4 Hpre. change (len [a; b]) with 2 in Hpre.
      assert (Hx : 0 <= x < len (lang R) / 4).
      { pose proof (Z.div_mod (len (lang R)) 4 ltac:(lia)). lia. }
      rewrite (Elem_recPrefix _ _ Hx).
      destruct (record_shape _ _ Hx) as (a' & b' & c' & d' & Hx4').
      rewrite recPrefix_take, Hx4' in Hpre by lia.
      injection Hpre as -> ->. rewrite Hx4'. cbn [mbind outcome_bind].
      change (index [a; b; c'; d'] 2) with (@Ret Z c').
      change (index [a; b; c'; d'] 3) with (@Ret Z d').
      cbn [mbind outcome_bind].
      destruct (Z.eqb_spec d' 0) as [->|]; [|reflexivity].
      destruct (Z.eqb_spec c' c) as [->|]; [|reflexivity].
      now destruct (Hnorec x Hx). }
    rewrite Hfor. cbn [mbind outcome_bind]. rewrite Halt.
    change (negb (-1 =? -1)) with false. cbn match.
    rewrite Hpack, Hbt. cbn [mbind outcome_bind].
    destruct (Z.eqb_spec (Z.land bt (u8 (Z.shiftl 1 (v mod 8)))) 0);
      [contradiction|].
    cbn [negb]. f_equal. rewrite (u16_small v) by lia.
    unfold v. rewrite u16_small by lia. lia.
Qed.

Lemma langID_noindex_roundtrip_witness :
  langID_String sample 101 = Ret (intToStr (101 - langNoIndexOffset sample) [0; 0; 0])
  /\ getLangID sample (intToStr (101 - langNoIndexOffset sample) [0; 0; 0])
     = Ret 101.
Proof.
  apply (langID_noindex_roundtrip sample 101).
  - reflexivity.
  - vm_compute. split; discriminate || reflexivity.
  - reflexivity.
  - reflexivity.
  - intros x Hx.
    assert (Hc : x = 0 \/ x = 1 \/ x = 2 \/ x = 3 \/ x = 4 \/ x = 5 \/ x = 6
                 \/ x = 7 \/ x = 8 \/ x = 9 \/ x = 10)
      by (change (len (lang sample) / 4) with 11 in Hx; lia).
    repeat (destruct Hc as [->|Hc]; [vm_compute; discriminate|]).
    subst x. vm_compute. discriminate.
  - reflexivity.
  - exists 2. split; [reflexivity|]. vm_compute. discriminate.
Defined.

(** ** Scripts and currencies round-trip *)

(** X20. For the tables of the registry, rendering a script or currency
    identifier and resolving the result gives the identifier back: for a
    slot [i > 0] of [script] (sorted on 4 bytes, at most 256 slots)
    holding a title-case code not held by the slot before, and for a slot
    [i > 0] of [currency] (sorted on 3 bytes) holding an upper-case code
    not held by the slot before. *)
Theorem script_currency_roundtrip (R : Registry) (i a b c d : Z) :
  (sortedOn 4 (script R) = true ->
   0 < i < len (script R) / 4 -> len (script R) / 4 <= 256 ->
   recPrefix (script R) i 4 = [a; b; c; d] ->
   isUpper a = true ->
   Forall (fun x => isLower x = true) [b; c; d] ->
   recPrefix (script R) (i - 1) 4 <> [a; b; c; d] ->
   scriptID_String R i ≫= getScriptID (script R) = Ret i)
  /\ (sortedOn 3 (currency R) = true ->
      0 < i < len (currency R) / 4 -> len (currency R) / 4 <= 65536 ->
      recPrefix (currency R) i 4 = [a; b; c; d] ->
      Forall (fun x => isUpper x = true) [a; b; c] ->
      recPrefix (currency R) (i - 1) 3 <> [a; b; c] ->
      currencyID_String R i ≫= getCurrencyID (currency R) = Ret i).
Proof.
  split.
  - intros Hs Hi Hsize Hrec Ha Hlow Hprev.
    assert (Hi' : 0 <= i < len (script R) / 4) by lia.
    unfold scriptID_String. destruct (Z.eqb_spec i 0); [lia|].
    rewrite (Elem_recPrefix _ _ Hi'), Hrec. cbn [mbind outcome_bind].
    unfold getScriptID, findIndex.
    assert (Hfix : FixCase (B "Zzzz") [a; b; c; d] = Some [a; b; c; d]).
    { change (B "Zzzz") with (90 :: B "zzz"). cbn [FixCase].
      unfold fixByte at 1. change (isUpper 90) with true. cbn match.
      unfold isLetter. rewrite Ha, orb_true_r.
      rewrite (isUpper_upperByte_id a Ha).
      rewrite (FixCase_lower (B "zzz") [b; c; d]);
        [|repeat constructor| |reflexivity].
      - now rewrite (toLower_lower _ Hlow).
      - eapply Forall_impl; [exact Hlow|]. cbn. intros y Hy.
        unfold isLetter. now rewrite Hy. }
    rewrite Hfix.
    assert (Hidx : Index_Index (script R) [a; b; c; d] = i).
    { apply Index_Index_first; auto. }
    rewrite Hidx. destruct (Z.eqb_spec i (-1)); [lia|].
    cbn [mbind outcome_bind]. now rewrite u8_small by lia.
  - intros Hs Hi Hsize Hrec Hup Hprev.
    assert (Hi' : 0 <= i < len (currency R) / 4) by lia.
    unfold currencyID_String. destruct (Z.eqb_spec i 0); [lia|].
    rewrite (Elem_recPrefix _ _ Hi'), Hrec. cbn [mbind outcome_bind].
    change (slice [a; b; c; d] 0 3) with (@Ret (list Z) [a; b; c]).
    cbn [mbind outcome_bind]. unfold getCurrencyID, findIndex.
    rewrite (FixCase_upper (B "XXX") [a; b; c]);
      [|repeat constructor| |reflexivity].
    2:{ eapply Forall_impl; [exact Hup|]. cbn. intros y Hy.
        unfold isLetter. rewrite Hy. apply orb_true_r. }
    rewrite (toUpper_upper _ Hup).
    assert (Hidx : Index_Index (currency R) [a; b; c] = i).
    { apply Index_Index_first; auto.
      change (len [a; b; c]) with 3.
      rewrite recPrefix_take, Hrec by lia. reflexivity. }
    rewrite Hidx. destruct (Z.eqb_spec i (-1)); [lia|].
    cbn [mbind outcome_bind]. now rewrite u16_small by lia.
Qed.

Lemma script_currency_roundtrip_witness :
  (scriptID_String sample 1 ≫= getScriptID (script sample) = Ret 1)
  /\ (currencyID_String sample 2 ≫= getCurrencyID (currency sample) = Ret 2).
Proof.
  split.
  - apply (proj1 (script_currency_roundtrip sample 1 76 97 116 110));
      try reflexivity.
    + vm_compute. split; reflexivity.
    + vm_compute. discriminate.
    + repeat constructor.
    + vm_compute. discriminate.
  - apply (proj2 (script_currency_roundtrip sample 2 85 83 68 2));
      try reflexivity.
    + vm_compute. split; reflexivity.
    + vm_compute. discriminate.
    + repeat constructor.
    + vm_compute. discriminate.
Defined.

(** ** 3-letter codes of 2-letter languages *)

(** X21. The ISO 639-3 code of a 2-letter language resolves to that
    language: for a slot [t] of [lang] holding four lowercase letters
    [a b c d] (the code [ab], with 3-letter code [acd]), [langID.ISO3]
    renders [t] as [acd]; and when [acd] has no record of its own in
    [lang] (sorted on two bytes, a whole number of records), is not in
    [altLangISO3], has its bit clear in [langNoIndex], and [t] is the
    first slot with [a], [c], [d] at positions 0, 2 and 3, [getLangID]
    resolves [acd] to [t] by the non-canonical scan. *)
Theorem langID_ISO3_roundtrip (R : Registry) (t a b c d bt : Z) :
  sortedOn 2 (lang R) = true -> len (lang R) mod 4 = 0 ->
  0 < t < len (lang R) / 4 -> t < langNoIndexOffset R -> t < 65536 ->
  recPrefix (lang R) t 4 = [a; b; c; d] ->
  Forall (fun x => isLower x = true) [a; b; c; d] ->
  (forall x, 0 <= x < len (lang R) / 4 ->
             recPrefix (lang R) x 4 <> [a; c; d; 0]) ->
  Index_Index (altLangISO3 R) [a; c; d] = -1 ->
  index (langNoIndex R) (strToInt uintSize [a; c; d] / 8) = Ret bt ->
  Z.land bt (u8 (Z.shiftl 1 (strToInt uintSize [a; c; d] mod 8))) = 0 ->
  (forall j b', 0 <= j < t -> recPrefix (lang R) j 4 <> [a; b'; c; d]) ->
  langID_ISO3 R t = Ret [a; c; d] /\ getLangID R [a; c; d] = Ret t.
Proof.
  intros Hs Hmod Ht Hoff H16 Hrec Hlow Hnorec Halt Hbt Hbit Hfirst.
  assert (Ht' : 0 <= t < len (lang R) / 4) by lia.
  inversion Hlow as [|? ? Ha Hlow1]; subst.
  inversion Hlow1 as [|? ? Hb Hlow2]; subst.
  inversion Hlow2 as [|? ? Hc Hlow3]; subst.
  inversion Hlow3 as [|? ? Hd _]; subst.
  pose proof Hc as Hc'. apply isLower_range in Hc'.
  pose proof Hd as Hd'. apply isLower_range in Hd'.
  split.
  - unfold langID_ISO3.
    destruct (Z.eqb_spec t 0); [lia|].
    destruct (Z.leb_spec (langNoIndexOffset R) t); [lia|]. cbn [orb].
    rewrite (Elem_recPrefix _ _ Ht'), Hrec. cbn [mbind outcome_bind].
    change (index [a; b; c; d] 3) with (@Ret Z d). cbn [mbind outcome_bind].
    destruct (Z.eqb_spec d 0); [lia|].
    change (index [a; b; c; d] 2) with (@Ret Z c). cbn [mbind outcome_bind].
    destruct (Z.eqb_spec c 0); [lia|]. reflexivity.
  - unfold getLangID. change (len [a; c; d] =? 2) with false. cbn match.
    unfold getLangISO3.
    assert (Hacd : Forall (fun x => isLower x = true) [a; c; d])
      by (repeat constructor; assumption).
    rewrite (FixCase_lower (B "und") [a; c; d]);
      [|repeat constructor| |reflexivity].
    2:{ eapply Forall_impl; [exact Hacd|]. cbn. intros y Hy.
        unfold isLetter. now rewrite Hy. }
    rewrite (toLower_lower _ Hacd).
    change (slice [a; c; d] 0 2) with (@Ret (list Z) [a; c]).
    change (slice [a; c; d] 0 1) with (@Ret (list Z) [a]).
    change (index [a; c; d] 1) with (@Ret Z c).
    change (index [a; c; d] 2) with (@Ret Z d).
    cbn [mbind outcome_bind].
    match goal with
    | |- context [forIndex (lang R) [a; c] ?body] =>
        assert (Hfor1 : forIndex (lang R) [a; c] body = Ret None)
    end.
    { apply forIndex_miss.
      intros x Hx0 Hx4 Hpre. change (len [a; c]) with 2 in Hpre.
      assert (Hx : 0 <= x < len (lang R) / 4).
      { pose proof (Z.div_mod (len (lang R)) 4 ltac:(lia)). lia. }
      rewrite (Elem_recPrefix _ _ Hx).
      destruct (record_shape _ _ Hx) as (a' & b' & c' & d' & Hx4').
      rewrite recPrefix_take, Hx4' in Hpre by lia.
      injection Hpre as -> ->. rewrite Hx4'. cbn [mbind outcome_bind].
      change (index [a; c; c'; d'] 2) with (@Ret Z c').
      change (index [a; c; c'; d'] 3) with (@Ret Z d').
      cbn [mbind outcome_bind].
      destruct (Z.eqb_spec d' 0) as [->|]; [|reflexivity].
      destruct (Z.eqb_spec c' d) as [->|]; [|reflexivity].
      now destruct (Hnorec x Hx). }
    rewrite Hfor1. cbn [mbind outcome_bind]. rewrite Halt.
    change (negb (-1 =? -1)) with false. cbn match.
    rewrite Hbt. cbn [mbind outcome_bind]. rewrite Hbit.
    change (negb (0 =? 0)) with false. cbn match.
    match goal with
    | |- context [forIndex (lang R) [a] ?body] =>
        assert (Hfor2 : forIndex (lang R) [a] body = Ret (Some t))
    end.
    { apply forIndex_reach with (t := t); auto.
      - change (len [a]) with 1. now apply sortedOn_1_of_2.
      - change (len [a]) with 1. rewrite recPrefix_take, Hrec by lia.
        reflexivity.
      - rewrite (Elem_recPrefix _ _ Ht'), Hrec. cbn [mbind outcome_bind].
        change (index [a; b; c; d] 2) with (@Ret Z c).
        change (index [a; b; c; d] 3) with (@Ret Z d).
        cbn [mbind outcome_bind]. rewrite !Z.eqb_refl. cbn [andb].
        now rewrite u16_small by lia.
      - intros j Hj Hpre. change (len [a]) with 1 in Hpre.
        assert (Hj' : 0 <= j < len (lang R) / 4) by lia.
        rewrite (Elem_recPrefix _ _ Hj').
        destruct (record_shape _ _ Hj') as (a' & b' & c' & d' & Hj4).
        rewrite recPrefix_take, Hj4 in Hpre by lia. injection Hpre as ->.
        rewrite Hj4. cbn [mbind outcome_bind].
        change (index [a; b'; c'; d'] 2) with (@Ret Z c').
        change (index [a; b'; c'; d'] 3) with (@Ret Z d').
        cbn [mbind outcome_bind].
        destruct (Z.eqb_spec c' c) as [->|]; [|reflexivity].
        destruct (Z.eqb_spec d' d) as [->|]; [|reflexivity].
        now destruct (Hfirst j b' Hj). }
    rewrite Hfor2. reflexivity.
Qed.

Lemma sample_lang_slots x :
  0 <= x < len (lang sample) / 4 ->
  x = 0 \/ x = 1 \/ x = 2 \/ x = 3 \/ x = 4 \/ x = 5 \/ x = 6 \/ x = 7
  \/ x = 8 \/ x = 9 \/ x = 10.
Proof. change (len (lang sample) / 4) with 11. lia. Qed.

Lemma langID_ISO3_roundtrip_witness :
  langID_ISO3 sample 4 = Ret (B "eng") /\ getLangID sample (B "eng") = Ret 4.
Proof.
  apply (langID_ISO3_roundtrip sample 4 101 110 110 103 0).
  - reflexivity.
  - reflexivity.
  - vm_compute. split; reflexivity.
  - reflexivity.
  - reflexivity.
  - reflexivity.
  - repeat constructor.
  - intros x Hx. apply sample_lang_slots in Hx.
    repeat (destruct Hx as [->|Hx]; [vm_compute; discriminate|]).
    subst x. vm_compute. discriminate.
  - reflexivity.
  - reflexivity.
  - reflexivity.
  - intros j b' Hj.
    assert (Hc : j = 0 \/ j = 1 \/ j = 2 \/ j = 3) by lia.
    destruct Hc as [->|[->|[->| ->]]]; vm_compute; discriminate.
Defined.
